(** * bgent: the memory manager and the evaluator-example renderer

    A shallow embedding of [src/lib/memory.ts] (class [MemoryManager]) and of
    the evaluator formatting module ([formatEvaluatorExamples] and its
    siblings), with the properties the specification states about them.

    - JavaScript numbers are IEEE-754 doubles: [float].
    - JavaScript objects are references into a heap ([gmap] from references
      to records); an assignment to a field updates the heap cell, so every
      alias of the object sees it.
    - An [async] method is a program over the calls it awaits (the runtime's
      [embed] and the methods of its [databaseAdapter]).  The collaborators
      are not part of this layer: a program is run against an arbitrary
      runtime, which answers each call with a value or a rejection and may
      change the heap and its own state while doing so.
    - A JavaScript string is the sequence of its characters: [string].
      [replaceAll] is the scan of ECMAScript, with the dollar patterns of
      its replacement text.
    - The name generator of the renderer is a state machine of any kind:
      a call returns a name and the next state. *)

From Stdlib Require Import String Ascii List Bool Arith Lia PrimFloat DecimalString.
From stdpp Require Import base option gmap.

(** ** Types of [./types] used by the memory manager *)

Definition UUID : Type := string.
Definition number : Type := float.

Module Content.
(** Modelled from the spec: the [Content] type declared in [./types]
    (a payload with at least a [content] text field and an optional
    [action] tag).  A field that is absent ([undefined]) is [None]. *)
Record t : Type := mk {
  content : option string;
  action : option string;
}.
End Content.

Module Memory.
(** Modelled from the spec: the [Memory] type declared in [./types]
    ([id], [userId], [content], and an [embedding] that is a sequence of
    numbers or absent). *)
Record t : Type := mk {
  id : UUID;
  userId : UUID;
  content : Content.t;
  embedding : option (list number);
}.

(** The record after the assignment [memory.embedding = v]. *)
Definition set_embedding (v : list number) (m : t) : t :=
  {| id := id m; userId := userId m; content := content m;
     embedding := Some v |}.
End Memory.

Module SimilaritySearch.
(** Modelled from the spec: the [SimilaritySearch] type declared in
    [./types] (a memory with a similarity score and threshold metadata).
    The memory manager only passes these values through. *)
Record t : Type := mk {
  memory : Memory.t;
  similarity : number;
  similarityThreshold : number;
}.
End SimilaritySearch.

(** A reference to a [Memory] object. *)
Abbreviation MemoryRef := positive (only parsing).

(** ** JavaScript truthiness ([ToBoolean]) at the types the code tests *)

(** A string or [undefined]: falsy when absent or empty. *)
Definition truthy_string (v : option string) : bool :=
  match v with
  | Some s => negb (String.eqb s EmptyString)
  | None => false
  end.

(** An array or [undefined]: every array is truthy, the empty one too. *)
Definition truthy_array {A : Type} (v : option (list A)) : bool :=
  match v with
  | Some _ => true
  | None => false
  end.

(** A boolean or [undefined]. *)
Definition truthy_boolean (v : option bool) : bool :=
  match v with
  | Some b => b
  | None => false
  end.

(** A destructuring or parameter default [x = d]: it applies exactly when
    the value is [undefined]. *)
Definition default_to {A : Type} (d : A) (v : option A) : A :=
  match v with
  | Some a => a
  | None => d
  end.

Module MemoryLib.

(** ** Constants of [memory.ts] *)

Definition embeddingDimension : nat := 1536.
(** [Array(embeddingDimension).fill(0)] *)
Definition embeddingZeroVector : list number :=
  repeat 0%float embeddingDimension.
(** [a.slice()]: a shallow copy of the whole array. *)
Definition slice {A : Type} (a : list A) : list A := firstn (length a) a.

(** [0.1]: the double nearest to one tenth. *)
Definition defaultMatchThreshold : number := 0x1.999999999999ap-4%float.
Definition defaultMatchCount : number := 10%float.

(** ** The calls the manager awaits *)

(** Argument objects of the adapter methods, with the property names of the
    call sites. *)
Record GetMemoriesByIdsParams : Type := {
  gmi_userIds : list UUID;
  gmi_count : number;
  gmi_unique : bool;
  gmi_tableName : string;
}.

Record GetMemoryByContentParams : Type := {
  query_table_name : string;
  query_threshold : number;
  query_input : string;
  query_field_name : string;
  query_field_sub_name : string;
  query_match_count : number;
}.

Record SearchMemoriesParams : Type := {
  sm_tableName : string;
  sm_userIds : list UUID;
  sm_embedding : list number;
  sm_match_threshold : number;
  sm_match_count : number;
  sm_unique : bool;
}.

Inductive Request : Type :=
| runtime_embed (input : option string)
| databaseAdapter_getMemoriesByIds (params : GetMemoriesByIdsParams)
| databaseAdapter_getMemoryByContent (params : GetMemoryByContentParams)
| databaseAdapter_searchMemories (params : SearchMemoriesParams)
| databaseAdapter_createMemory
    (memory : MemoryRef) (tableName : string) (unique : bool)
| databaseAdapter_removeMemory (memoryId : UUID) (tableName : string)
| databaseAdapter_removeAllMemoriesByUserIds
    (userIds : list UUID) (tableName : string)
| databaseAdapter_countMemoriesByUserIds
    (userIds : list UUID) (unique : bool) (tableName : string).

(** What the promise of each call resolves to. *)
Definition Reply (q : Request) : Type :=
  match q with
  | runtime_embed _ => list number
  | databaseAdapter_getMemoriesByIds _ => list MemoryRef
  | databaseAdapter_getMemoryByContent _ => list SimilaritySearch.t
  | databaseAdapter_searchMemories _ => list MemoryRef
  | databaseAdapter_createMemory _ _ _ => unit
  | databaseAdapter_removeMemory _ _ => unit
  | databaseAdapter_removeAllMemoriesByUserIds _ _ => unit
  | databaseAdapter_countMemoriesByUserIds _ _ _ => number
  end.

(** The options object of [searchMemoriesByEmbedding]; every property is
    optional. *)
Record SearchOpts : Type := {
  match_threshold : option number;
  count : option number;
  userIds : option (list UUID);
  unique : option bool;
}.

(** The options object of [getMemoriesByIds]. *)
Record GetByIdsOpts : Type := {
  gbi_userIds : list UUID;
  gbi_count : option number;
  gbi_unique : option bool;
}.

(** Values printed by [console.log]. *)
Inductive LogArg : Type :=
| LogString (s : string)
| LogLength (n : nat)
| LogOpts (opts : SearchOpts)
| LogUndefined.

(** ** Programs *)

Inductive Prog (A : Type) : Type :=
| Return (a : A)
| ThrowNewError (message : string)
| Await (q : Request) (k : Reply q -> Prog A)
| ReadMemory (r : MemoryRef) (k : Memory.t -> Prog A)
| AssignEmbedding (r : MemoryRef) (v : list number) (k : Prog A)
| ConsoleLog (args : list LogArg) (k : Prog A).

Arguments Return {A} a.
Arguments ThrowNewError {A} message.
Arguments Await {A} q k.
Arguments ReadMemory {A} r k.
Arguments AssignEmbedding {A} r v k.
Arguments ConsoleLog {A} args k.

Fixpoint bind {A B : Type} (p : Prog A) (f : A -> Prog B) : Prog B :=
  match p with
  | Return a => f a
  | ThrowNewError message => ThrowNewError message
  | Await q k => Await q (fun x => bind (k x) f)
  | ReadMemory r k => ReadMemory r (fun m => bind (k m) f)
  | AssignEmbedding r v k => AssignEmbedding r v (bind k f)
  | ConsoleLog args k => ConsoleLog args (bind k f)
  end.

#[global] Instance Prog_ret : MRet Prog := @Return.
#[global] Instance Prog_bind : MBind Prog := fun A B f p => bind p f.

(** [await c] *)
Definition await (q : Request) : Prog (Reply q) := Await q Return.
(** Reading the fields of an object. *)
Definition read (r : MemoryRef) : Prog Memory.t := ReadMemory r Return.
(** [memory.embedding = v] *)
Definition assign_embedding (r : MemoryRef) (v : list number) : Prog unit :=
  AssignEmbedding r v (Return tt).
(** [console.log(...args)] *)
Definition console_log (args : list LogArg) : Prog unit :=
  ConsoleLog args (Return tt).

(** ** Running a program against a runtime *)

(** The objects: what each reference points to. *)
Abbreviation Heap := (gmap MemoryRef Memory.t) (only parsing).

Section Semantics.

(** The state of the collaborators and the values they reject with. *)
Context {W Rejection : Type}.

(** [this.runtime]: the embedder and the database adapter.  A call is
    answered with a value or rejected; answering may change the heap and
    the collaborators' own state. *)
Definition BgentRuntime : Type :=
  forall q : Request, Heap -> W -> (Reply q + Rejection) * Heap * W.

Record MemoryManager : Type := {
  runtime : BgentRuntime;
  tableName : string;
}.

(** [new MemoryManager({ tableName, runtime })] *)
Definition constructor (tableName : string) (runtime : BgentRuntime)
  : MemoryManager :=
  {| runtime := runtime; tableName := tableName |}.

(** What a run leaves behind, in order: the calls awaited with their
    answers, the assignments to [embedding], the console output. *)
Inductive Event : Type :=
| Called (q : Request) (answer : Reply q + Rejection)
| Assigned (r : MemoryRef) (v : list number)
| Logged (args : list LogArg).

Record State : Type := {
  heap : Heap;
  world : W;
}.

(** Why a promise is rejected: an [Error] constructed and thrown by the
    manager itself, or the rejection of an awaited call. *)
Inductive Failure : Type :=
| NewError (message : string)
| Foreign (e : Rejection).

(** [new Error("Memory content is empty")], the specification's
    [EmptyContentError]. *)
Definition EmptyContentError : Failure := NewError "Memory content is empty".

(** [Stuck] is the use of a reference to no object, which JavaScript
    cannot produce. *)
Inductive Outcome (A : Type) : Type :=
| Fulfilled (a : A)
| Rejected (f : Failure)
| Stuck.

Arguments Fulfilled {A} a.
Arguments Rejected {A} f.
Arguments Stuck {A}.

Record Run (A : Type) : Type := {
  outcome : Outcome A;
  final : State;
  trace : list Event;
}.

Arguments outcome {A} _.
Arguments final {A} _.
Arguments trace {A} _.

Definition after {A : Type} (ev : Event) (r : Run A) : Run A :=
  {| outcome := outcome r; final := final r; trace := ev :: trace r |}.

(** The code has no [try]: an awaited rejection ends the run. *)
Fixpoint run {A : Type} (rt : BgentRuntime) (p : Prog A) (st : State)
  : Run A :=
  match p with
  | Return a => {| outcome := Fulfilled a; final := st; trace := [] |}
  | ThrowNewError message =>
      {| outcome := Rejected (NewError message); final := st; trace := [] |}
  | Await q k =>
      let '(answer, h, w) := rt q (heap st) (world st) in
      let st' := {| heap := h; world := w |} in
      after (Called q answer)
        match answer with
        | inl x => run rt (k x) st'
        | inr e =>
            {| outcome := Rejected (Foreign e); final := st'; trace := [] |}
        end
  | ReadMemory r k =>
      match heap st !! r with
      | Some m => run rt (k m) st
      | None => {| outcome := Stuck; final := st; trace := [] |}
      end
  | AssignEmbedding r v k =>
      match heap st !! r with
      | Some m =>
          after (Assigned r v)
            (run rt k
               {| heap := <[r := Memory.set_embedding v m]> (heap st);
                  world := world st |})
      | None => {| outcome := Stuck; final := st; trace := [] |}
      end
  | ConsoleLog args k => after (Logged args) (run rt k st)
  end.

(** ** The methods of [MemoryManager] *)

Definition addEmbeddingToMemory (this : MemoryManager) (memory : MemoryRef)
  : Prog MemoryRef :=
  m ← read memory;
  if truthy_array (Memory.embedding m) then mret memory
  else
    m ← read memory;
    let memoryText := Content.content (Memory.content m) in
    if negb (truthy_string memoryText)
    then ThrowNewError "Memory content is empty"
    else
      v ← (if truthy_string memoryText
           then await (runtime_embed memoryText)
           else mret (slice embeddingZeroVector));
      assign_embedding memory v;;
      mret memory.

Definition getMemoriesByIds (this : MemoryManager) (opts : GetByIdsOpts)
  : Prog (list MemoryRef) :=
  let userIds := gbi_userIds opts in
  let count := default_to 10%float (gbi_count opts) in
  let unique := default_to true (gbi_unique opts) in
  result ← await (databaseAdapter_getMemoriesByIds
                    {| gmi_userIds := userIds;
                       gmi_count := count;
                       gmi_unique := unique;
                       gmi_tableName := tableName this |});
  mret result.

Definition getMemoryByContent (this : MemoryManager) (content : string)
  : Prog (list SimilaritySearch.t) :=
  result ← await (databaseAdapter_getMemoryByContent
                    {| query_table_name := tableName this;
                       query_threshold := 2%float;
                       query_input := content;
                       query_field_name := "content";
                       query_field_sub_name := "content";
                       query_match_count := 10%float |});
  mret result.

(** [result[0]?.embedding?.length] *)
Definition first_embedding_length (result : list MemoryRef) : Prog LogArg :=
  match result with
  | [] => mret LogUndefined
  | r0 :: _ =>
      m0 ← read r0;
      mret (match Memory.embedding m0 with
            | Some e => LogLength (length e)
            | None => LogUndefined
            end)
  end.

Definition searchMemoriesByEmbedding (this : MemoryManager)
    (embedding : list number) (opts : SearchOpts) : Prog (list MemoryRef) :=
  let match_threshold :=
    default_to defaultMatchThreshold (match_threshold opts) in
  let count := default_to defaultMatchCount (count opts) in
  let userIds := default_to [] (userIds opts) in
  let unique := unique opts in
  console_log [LogString "embedding length to search is";
               LogLength (length embedding)];;
  console_log [LogString "opts are"; LogOpts opts];;
  console_log [LogOpts opts];;
  result ← await (databaseAdapter_searchMemories
                    {| sm_tableName := tableName this;
                       sm_userIds := userIds;
                       sm_embedding := embedding;
                       sm_match_threshold := match_threshold;
                       sm_match_count := count;
                       sm_unique := negb (negb (truthy_boolean unique)) |});
  len ← first_embedding_length result;
  console_log [LogString "result.embedding.length"; len];;
  mret result.

Definition createMemory (this : MemoryManager) (memory : MemoryRef)
    (unique : option bool) : Prog unit :=
  let unique := default_to false unique in
  await (databaseAdapter_createMemory memory (tableName this) unique);;
  mret tt.

Definition removeMemory (this : MemoryManager) (memoryId : UUID)
  : Prog unit :=
  await (databaseAdapter_removeMemory memoryId (tableName this));;
  mret tt.

Definition removeAllMemoriesByUserIds (this : MemoryManager)
    (userIds : list UUID) : Prog unit :=
  await (databaseAdapter_removeAllMemoriesByUserIds userIds (tableName this));;
  mret tt.

Definition countMemoriesByUserIds (this : MemoryManager)
    (userIds : list UUID) (unique : option bool) : Prog number :=
  let unique := default_to true unique in
  n ← await (databaseAdapter_countMemoriesByUserIds
               userIds unique (tableName this));
  mret n.

(** A call of a method on [this]. *)
Definition call {A : Type} (this : MemoryManager) (p : Prog A) (st : State)
  : Run A :=
  run (runtime this) p st.

(** The methods as one type, results dropped. *)
Inductive Operation : Type :=
| op_addEmbeddingToMemory (memory : MemoryRef)
| op_getMemoriesByIds (opts : GetByIdsOpts)
| op_getMemoryByContent (content : string)
| op_searchMemoriesByEmbedding (embedding : list number) (opts : SearchOpts)
| op_createMemory (memory : MemoryRef) (unique : option bool)
| op_removeMemory (memoryId : UUID)
| op_removeAllMemoriesByUserIds (userIds : list UUID)
| op_countMemoriesByUserIds (userIds : list UUID) (unique : option bool).

Definition perform (this : MemoryManager) (op : Operation) : Prog unit :=
  match op with
  | op_addEmbeddingToMemory memory =>
      addEmbeddingToMemory this memory;; mret tt
  | op_getMemoriesByIds opts => getMemoriesByIds this opts;; mret tt
  | op_getMemoryByContent content =>
      getMemoryByContent this content;; mret tt
  | op_searchMemoriesByEmbedding embedding opts =>
      searchMemoriesByEmbedding this embedding opts;; mret tt
  | op_createMemory memory unique => createMemory this memory unique
  | op_removeMemory memoryId => removeMemory this memoryId
  | op_removeAllMemoriesByUserIds userIds =>
      removeAllMemoriesByUserIds this userIds
  | op_countMemoriesByUserIds userIds unique =>
      countMemoriesByUserIds this userIds unique;; mret tt
  end.

(** The rejection an event carries, if it is a rejected call. *)
Definition rejection_of (ev : Event) : option Rejection :=
  match ev with
  | Called _ (inr e) => Some e
  | _ => None
  end.

Definition is_call (ev : Event) : bool :=
  match ev with
  | Called _ _ => true
  | _ => false
  end.

(** The calls of a trace, in order. *)
Definition calls (tr : list Event) : list Event := List.filter is_call tr.

(** ** Properties of runtimes and of runs *)

(** The Embedder's contract, [embed(text) -> float[D]]: whenever the
    embedder answers, the vector has the embedding dimension. *)
Definition embedder_contract (rt : BgentRuntime) : Prop :=
  forall input h w v h' w',
    rt (runtime_embed input) h w = (inl v, h', w') ->
    length v = embeddingDimension.

(** Objects are not destroyed while a reference to them is held. *)
Definition keeps_objects (rt : BgentRuntime) : Prop :=
  forall q h w r, is_Some (h !! r) -> is_Some ((rt q h w).1.2 !! r).

(** What a promise settles to, given the answer of the awaited call. *)
Definition settle {A : Type} (answer : A + Rejection) : Outcome A :=
  match answer with
  | inl x => Fulfilled x
  | inr e => Rejected (Foreign e)
  end.

(** The shape every run of a method has: at most one call is awaited;
    if it is rejected the run ends there, rejected with the same value;
    and the run is rejected in no other way, except by an error the
    method constructs before awaiting anything. *)
Definition propagates {A : Type} (r : Run A) : Prop :=
  length (calls (trace r)) <= 1
  /\ (forall ev e,
        In ev (trace r) -> rejection_of ev = Some e ->
        outcome r = Rejected (Foreign e) /\ last (trace r) = Some ev)
  /\ (forall e,
        outcome r = Rejected (Foreign e) ->
        exists q, calls (trace r) = [Called q (inr e)])
  /\ (forall message,
        outcome r = Rejected (NewError message) -> trace r = []).

(** The table an adapter call is about; the embedder has none. *)
Definition table_of (q : Request) : option string :=
  match q with
  | runtime_embed _ => None
  | databaseAdapter_getMemoriesByIds params => Some (gmi_tableName params)
  | databaseAdapter_getMemoryByContent params =>
      Some (query_table_name params)
  | databaseAdapter_searchMemories params => Some (sm_tableName params)
  | databaseAdapter_createMemory _ tableName _ => Some tableName
  | databaseAdapter_removeMemory _ tableName => Some tableName
  | databaseAdapter_removeAllMemoriesByUserIds _ tableName => Some tableName
  | databaseAdapter_countMemoriesByUserIds _ _ tableName => Some tableName
  end.

(** The call an event records. *)
Definition call_of (ev : Event) : option Request :=
  match ev with
  | Called q _ => Some q
  | _ => None
  end.

(** The object an event assigns to. *)
Definition assigned_of (ev : Event) : option MemoryRef :=
  match ev with
  | Assigned r _ => Some r
  | _ => None
  end.

(** A runtime whose collaborators leave the objects as they are. *)
Definition leaves_heap (rt : BgentRuntime) : Prop :=
  forall q h w, (rt q h w).1.2 = h.

End Semantics.

Arguments BgentRuntime : clear implicits.
Arguments MemoryManager : clear implicits.
Arguments State : clear implicits.
Arguments Event : clear implicits.
Arguments Failure : clear implicits.
Arguments Outcome : clear implicits.
Arguments Run : clear implicits.
Arguments Fulfilled {Rejection A} a.
Arguments Rejected {Rejection A} f.
Arguments Stuck {Rejection A}.
Arguments outcome {W Rejection A} _.
Arguments final {W Rejection A} _.
Arguments trace {W Rejection A} _.

(** ** A small runtime to run the methods against *)

Module Demo.

Local Open Scope string_scope.

(** Every call is answered and counted; the embedder returns a vector of
    the embedding dimension, the adapter finds the memory [7]. *)
Definition runtime : BgentRuntime nat string :=
  fun q h w =>
    match q return (Reply q + string) * Heap * nat with
    | runtime_embed _ => (inl (repeat 1%float embeddingDimension), h, S w)
    | databaseAdapter_getMemoriesByIds _ => (inl [7%positive], h, S w)
    | databaseAdapter_getMemoryByContent _ => (inl [], h, S w)
    | databaseAdapter_searchMemories _ => (inl [7%positive], h, S w)
    | databaseAdapter_createMemory _ _ _ => (inl tt, h, S w)
    | databaseAdapter_removeMemory _ _ => (inl tt, h, S w)
    | databaseAdapter_removeAllMemoriesByUserIds _ _ => (inl tt, h, S w)
    | databaseAdapter_countMemoriesByUserIds _ _ _ =>
        (inl 1%float, h, S w)
    end.

(** A runtime whose collaborators are down. *)
Definition offline : BgentRuntime nat string :=
  fun q h w => (inr "503", h, S w).

Definition manager : MemoryManager nat string :=
  constructor "memories" runtime.

Definition hello : Memory.t :=
  Memory.mk "m7" "u1" (Content.mk (Some "hello") None) None.
Definition embedded : Memory.t :=
  Memory.mk "m8" "u1" (Content.mk (Some "hi") None)
    (Some [1%float; 2%float]).
Definition blank : Memory.t :=
  Memory.mk "m9" "u1" (Content.mk (Some "") None) None.
Definition missing : Memory.t :=
  Memory.mk "m10" "u1" (Content.mk None None) None.

Definition state : State nat :=
  {| heap := <[7%positive := hello]>
               (<[8%positive := embedded]>
                  (<[9%positive := blank]>
                     (<[10%positive := missing]> ∅)));
     world := 0 |}.

End Demo.

End MemoryLib.

(** ** The evaluator formatting module *)

Module Evaluators.

Local Open Scope string_scope.

Module ActionExample.
(** Modelled from the spec: the [ActionExample] type declared in
    [./types] (a message record: the speaker and a content payload). *)
Record t : Type := mk {
  user : string;
  content : Content.t;
}.
End ActionExample.

Module Example.
(** Modelled from the spec: an example of an evaluator (context text, an
    ordered sequence of message records, outcome text). *)
Record t : Type := mk {
  context : string;
  messages : list ActionExample.t;
  outcome : string;
}.
End Example.

Module Evaluator.
(** Modelled from the spec: the [Evaluator] type declared in [./types],
    without its handler and validator functions, which the formatting
    functions never touch. *)
Record t : Type := mk {
  name : string;
  description : string;
  condition : string;
  examples : list Example.t;
}.
End Evaluator.

(** *** Strings *)

(** The line feed of ["\n"]. *)
Definition LF : string := String (ascii_of_nat 10) EmptyString.

(** A value interpolated in a template literal: [undefined] prints as
    its name. *)
Definition interpolate (v : option string) : string :=
  match v with
  | Some s => s
  | None => "undefined"
  end.

(** [`${n}`] for a non-negative integer. *)
Definition decimal (n : nat) : string :=
  DecimalString.NilZero.string_of_uint (Nat.to_uint n).

(** [a.join(separator)] *)
Definition join (separator : string) (a : list string) : string :=
  String.concat separator a.

(** The string without its first [n] characters. *)
Fixpoint string_drop (n : nat) (s : string) : string :=
  match n, s with
  | S k, String _ s' => string_drop k s'
  | _, _ => s
  end.

(** [GetSubstitution] of ECMAScript for a match without captures: in the
    replacement text, [$$] is one dollar sign, [$&] the matched text,
    [$`] the text before the match and [$'] the text after it; any
    other character, a dollar sign too, stands for itself. *)
Fixpoint GetSubstitution (matched before after template : string) : string :=
  match template with
  | EmptyString => EmptyString
  | String c rest =>
      if Ascii.eqb c "$" then
        match rest with
        | EmptyString => "$"
        | String d rest' =>
            if Ascii.eqb d "$" then
              "$" ++ GetSubstitution matched before after rest'
            else if Ascii.eqb d "&" then
              matched ++ GetSubstitution matched before after rest'
            else if Ascii.eqb d "`" then
              before ++ GetSubstitution matched before after rest'
            else if Ascii.eqb d "'" then
              after ++ GetSubstitution matched before after rest'
            else String "$" (GetSubstitution matched before after rest)
        end
      else String c (GetSubstitution matched before after rest)
  end.

(** The scan of [replaceAll] for a non-empty search string, from left to
    right: [before] is the text already passed, [skip] the number of
    characters of the last match still to pass.  A match is looked for at
    the first position after the previous match. *)
Fixpoint replaceAll_scan (searchString replaceValue : string)
    (skip : nat) (before rest : string) : string :=
  match rest with
  | EmptyString => EmptyString
  | String c rest' =>
      match skip with
      | S skip' =>
          replaceAll_scan searchString replaceValue skip'
            (before ++ String c EmptyString) rest'
      | O =>
          if String.prefix searchString rest then
            GetSubstitution searchString before
              (string_drop (String.length searchString) rest) replaceValue
            ++ replaceAll_scan searchString replaceValue
                 (String.length searchString - 1)
                 (before ++ String c EmptyString) rest'
          else
            String c
              (replaceAll_scan searchString replaceValue 0
                 (before ++ String c EmptyString) rest')
      end
  end.

(** The empty search string matches before every character and at the
    end. *)
Fixpoint replaceAll_empty (replaceValue before rest : string) : string :=
  GetSubstitution "" before rest replaceValue
  ++ match rest with
     | EmptyString => EmptyString
     | String c rest' =>
         String c
           (replaceAll_empty replaceValue
              (before ++ String c EmptyString) rest')
     end.

(** [s.replaceAll(searchString, replaceValue)] with two strings. *)
Definition replaceAll (s searchString replaceValue : string) : string :=
  if String.eqb searchString "" then replaceAll_empty replaceValue "" s
  else replaceAll_scan searchString replaceValue 0 "" s.

(** *** Arrays *)

(** [a.forEach((x, index) => ...)] updating the variables [vars] the
    callback assigns to. *)
Fixpoint forEach {A V : Type} (callback : A -> nat -> V -> V)
    (a : list A) (index : nat) (vars : V) : V :=
  match a with
  | [] => vars
  | x :: a' => forEach callback a' (S index) (callback x index vars)
  end.

Section NameGenerator.

(** The random source behind [uniqueNamesGenerator({ dictionaries:
    [names] })] of the package [unique-names-generator]: each call
    returns a name and moves the source on. *)
Context {G : Type} (uniqueNamesGenerator : G -> string * G).

(** [Array.from({ length }, () => uniqueNamesGenerator(...))] *)
Fixpoint Array_from (length : nat) (g : G) : list string * G :=
  match length with
  | O => ([], g)
  | S n =>
      let '(name, g1) := uniqueNamesGenerator g in
      let '(rest, g2) := Array_from n g1 in
      (name :: rest, g2)
  end.

(** [a.map(f)] where [f] draws from the generator. *)
Fixpoint map_drawing {A : Type} (f : A -> G -> string * G)
    (a : list A) (g : G) : list string * G :=
  match a with
  | [] => ([], g)
  | x :: a' =>
      let '(y, g1) := f x g in
      let '(ys, g2) := map_drawing f a' g1 in
      (y :: ys, g2)
  end.

(** [`{{user${index + 1}}}`] *)
Definition placeholder (index : nat) : string :=
  "{{user" ++ decimal (index + 1) ++ "}}".

(** The callback of [formattedMessages]. *)
Definition formatMessage (exampleNames : list string)
    (message : ActionExample.t) : string :=
  let messageString :=
    ActionExample.user message ++ ": "
    ++ interpolate (Content.content (ActionExample.content message)) in
  let messageString :=
    forEach
      (fun name index messageString =>
         let placeholder := placeholder index in
         replaceAll messageString placeholder name)
      exampleNames 0 messageString in
  messageString
  ++ (if truthy_string (Content.action (ActionExample.content message))
      then " (" ++ interpolate (Content.action (ActionExample.content message))
           ++ ")"
      else "").

(** The body of the callback over examples, once its names are drawn. *)
Definition formatExampleWith (exampleNames : list string)
    (example : Example.t) : string :=
  let formattedContext := Example.context example in
  let formattedOutcome := Example.outcome example in
  let '(formattedContext, formattedOutcome) :=
    forEach
      (fun name index '(formattedContext, formattedOutcome) =>
         let placeholder := placeholder index in
         (replaceAll formattedContext placeholder name,
          replaceAll formattedOutcome placeholder name))
      exampleNames 0 (formattedContext, formattedOutcome) in
  let formattedMessages :=
    join LF (map (formatMessage exampleNames) (Example.messages example)) in
  "Context:" ++ LF ++ formattedContext ++ LF ++ LF
  ++ "Messages:" ++ LF ++ formattedMessages ++ LF ++ LF
  ++ "Outcome:" ++ LF ++ formattedOutcome.

(** The callback over examples. *)
Definition formatExample (example : Example.t) (g : G) : string * G :=
  let '(exampleNames, g1) := Array_from 5 g in
  (formatExampleWith exampleNames example, g1).

Definition formatEvaluatorExamples (evaluators : list Evaluator.t) (g : G)
  : string * G :=
  let '(blocks, g1) :=
    map_drawing
      (fun evaluator g =>
         let '(rendered, g1) :=
           map_drawing formatExample (Evaluator.examples evaluator) g in
         (join (LF ++ LF) rendered, g1))
      evaluators g in
  (join (LF ++ LF) blocks, g1).

End NameGenerator.

(** *** The other formatting functions *)

(** [a.map((x, index) => ...)] *)
Fixpoint map_indexed {A B : Type} (callback : A -> nat -> B)
    (a : list A) (index : nat) : list B :=
  match a with
  | [] => []
  | x :: a' => callback x index :: map_indexed callback a' (S index)
  end.

Definition formatEvaluatorNames (evaluators : list Evaluator.t) : string :=
  join ("," ++ LF)
    (map (fun evaluator => "'" ++ Evaluator.name evaluator ++ "'")
       evaluators).

Definition formatEvaluators (evaluators : list Evaluator.t) : string :=
  join ("," ++ LF)
    (map (fun evaluator =>
            "'" ++ Evaluator.name evaluator ++ ": "
            ++ Evaluator.description evaluator ++ "'")
       evaluators).

Definition formatEvaluatorConditions (evaluators : list Evaluator.t)
  : string :=
  join ("," ++ LF)
    (map (fun evaluator =>
            "'" ++ Evaluator.name evaluator ++ ": "
            ++ Evaluator.condition evaluator ++ "'")
       evaluators).

Definition formatEvaluatorExampleConditions (evaluators : list Evaluator.t)
  : string :=
  join (LF ++ LF)
    (map (fun evaluator =>
            join LF
              (map_indexed
                 (fun _example index =>
                    Evaluator.name evaluator ++ " Example "
                    ++ decimal (index + 1) ++ ": "
                    ++ Evaluator.condition evaluator)
                 (Evaluator.examples evaluator) 0))
       evaluators).

Definition formatEvaluatorExampleDescriptions (evaluators : list Evaluator.t)
  : string :=
  join (LF ++ LF)
    (map (fun evaluator =>
            join LF
              (map_indexed
                 (fun _example index =>
                    Evaluator.name evaluator ++ " Example "
                    ++ decimal (index + 1) ++ ": "
                    ++ Evaluator.description evaluator)
                 (Evaluator.examples evaluator) 0))
       evaluators).

(** *** What the properties of the renderer speak of *)

(** [p] is found somewhere in [s]. *)
Definition occurs (p s : string) : Prop :=
  exists a b, s = a ++ p ++ b.

Definition absent (p s : string) : Prop := ~ occurs p s.

(** The character is one of the string's. *)
Fixpoint has_char (c : ascii) (s : string) : bool :=
  match s with
  | EmptyString => false
  | String d s' => Ascii.eqb d c || has_char c s'
  end.

(** A name without dollar sign: a replacement text that stands for
    itself.  The names of the dictionary are of this kind. *)
Definition plain (name : string) : Prop := has_char "$" name = false.

(** No proper end of [p] is also a beginning of [p]: two occurrences of
    [p] never overlap. *)
Definition unbordered (p : string) : Prop :=
  forall n, 0 < n < String.length p ->
            String.prefix (string_drop n p) p = false.

Definition unborderedb (p : string) : bool :=
  forallb (fun n => negb (String.prefix (string_drop n p) p))
    (seq 1 (String.length p - 1)).

(** The names substituted in a text, placeholder after placeholder. *)
Definition substitute (names : list string) (text : string) : string :=
  forEach
    (fun name index text => replaceAll text (placeholder index) name)
    names 0 text.

(** [replaced_in_turn i names s s']: [s'] is [s] after every occurrence of
    the placeholder number [i] is replaced by the first name, then every
    occurrence of the next placeholder by the next name, and so on.  A
    text is cut at the occurrences of a placeholder into pieces free of
    it, and the pieces are joined again by the name. *)
Inductive replaced_in_turn : nat -> list string -> string -> string -> Prop :=
| replaced_done (i : nat) (s : string) : replaced_in_turn i [] s s
| replaced_next (i : nat) (name : string) (names : list string)
    (pieces : list string) (s' : string) :
    Forall (absent (placeholder i)) pieces ->
    replaced_in_turn (S i) names (join name pieces) s' ->
    replaced_in_turn i (name :: names) (join (placeholder i) pieces) s'.

(** The pieces of a text put together again with, at each occurrence of
    [p], what the replacement text [name] expands to there: the expansion
    sees the text before the occurrence and the text after it. *)
Fixpoint weave (p name before : string) (pieces : list string) : string :=
  match pieces with
  | [] => ""
  | x :: rest =>
      match rest with
      | [] => x
      | _ :: _ =>
          x ++ GetSubstitution p (before ++ x) (join p rest) name
          ++ weave p name (before ++ x ++ p) rest
      end
  end.

(** The text of a message before substitution, and what follows it. *)
Definition messageText (message : ActionExample.t) : string :=
  ActionExample.user message ++ ": "
  ++ interpolate (Content.content (ActionExample.content message)).

Definition actionSuffix (message : ActionExample.t) : string :=
  match Content.action (ActionExample.content message) with
  | Some action =>
      if String.eqb action "" then "" else " (" ++ action ++ ")"
  | None => ""
  end.

(** The layout of a rendered example. *)
Definition layout (context : string) (messages : list string)
    (outcome : string) : string :=
  "Context:" ++ LF ++ context ++ LF ++ LF
  ++ "Messages:" ++ LF ++ join LF messages ++ LF ++ LF
  ++ "Outcome:" ++ LF ++ outcome.

Section Draws.

Context {G : Type} (uniqueNamesGenerator : G -> string * G).

(** The first [n] names the generator gives from [g] on, and the
    generator after them. *)
Fixpoint draws (n : nat) (g : G) : list string :=
  match n with
  | O => []
  | S k =>
      fst (uniqueNamesGenerator g) :: draws k (snd (uniqueNamesGenerator g))
  end.

Fixpoint advance (n : nat) (g : G) : G :=
  match n with
  | O => g
  | S k => advance k (snd (uniqueNamesGenerator g))
  end.

End Draws.

(** The five names of the example number [i] (counted from 0 through all
    evaluators) in the sequence of names drawn. *)
Definition names_of_example (stream : list string) (i : nat) : list string :=
  firstn 5 (skipn (5 * i) stream).

(** The examples rendered each with its own five names of the sequence,
    [i] being the number of the first one. *)
Fixpoint render_examples (stream : list string) (i : nat)
    (examples : list Example.t) : list string :=
  match examples with
  | [] => []
  | example :: rest =>
      layout
        (substitute (names_of_example stream i) (Example.context example))
        (map (fun message =>
                substitute (names_of_example stream i) (messageText message)
                ++ actionSuffix message)
           (Example.messages example))
        (substitute (names_of_example stream i) (Example.outcome example))
      :: render_examples stream (S i) rest
  end.

Fixpoint render_evaluators (stream : list string) (i : nat)
    (evaluators : list Evaluator.t) : list string :=
  match evaluators with
  | [] => []
  | evaluator :: rest =>
      join (LF ++ LF)
        (render_examples stream i (Evaluator.examples evaluator))
      :: render_evaluators stream
           (i + Datatypes.length (Evaluator.examples evaluator)) rest
  end.

(** The number of examples of all evaluators. *)
Definition count_examples (evaluators : list Evaluator.t) : nat :=
  list_sum (map (fun evaluator =>
                   Datatypes.length (Evaluator.examples evaluator))
              evaluators).

(** The evaluator with its description and its condition exchanged. *)
Definition exchange (evaluator : Evaluator.t) : Evaluator.t :=
  Evaluator.mk (Evaluator.name evaluator) (Evaluator.condition evaluator)
    (Evaluator.description evaluator) (Evaluator.examples evaluator).

(** The line of the example number [k] (from 1) of an evaluator. *)
Definition conditionLine (evaluator : Evaluator.t) (k : nat) : string :=
  Evaluator.name evaluator ++ " Example " ++ decimal k ++ ": "
  ++ Evaluator.condition evaluator.

(** [p] is found somewhere in [s], decided from left to right. *)
Fixpoint occursb (p s : string) : bool :=
  String.prefix p s
  || match s with
     | EmptyString => false
     | String _ s' => occursb p s'
     end.

(** None of the first [n] placeholders is found in the text. *)
Definition placeholder_free (n : nat) (s : string) : Prop :=
  forall i, i < n -> absent (placeholder i) s.

(** *** The rendering, with the placeholders as they are written *)

(** The placeholders of the five participants, as the examples write
    them. *)
Definition user_placeholders : list string :=
  ["{{user1}}"; "{{user2}}"; "{{user3}}"; "{{user4}}"; "{{user5}}"].

(** [replaced_each pairs s s']: [s'] is [s] after every occurrence of
    the first placeholder is replaced by its name, then every occurrence
    of the second by its name, and so on through the pairs.  A text is
    cut at the occurrences of a placeholder into pieces free of it, and
    the pieces are joined again by the name. *)
Inductive replaced_each : list (string * string) -> string -> string -> Prop :=
| replaced_none (s : string) : replaced_each [] s s
| replaced_one (p name : string) (rest : list (string * string))
    (pieces : list string) (s' : string) :
    Forall (absent p) pieces ->
    replaced_each rest (String.concat name pieces) s' ->
    replaced_each ((p, name) :: rest) (String.concat p pieces) s'.

(** [renders names example rendered]: the text is the example laid out,
    its context, each of its message strings and its outcome having
    every [{{user1}}] replaced by the first name, every [{{user2}}] by
    the second, and so on to [{{user5}}] and the fifth; the action of a
    message follows its string in brackets. *)
Definition renders (names : list string) (example : Example.t)
    (rendered : string) : Prop :=
  exists context messages outcome,
    rendered
    = "Context:
" ++ context ++ "

Messages:
" ++ String.concat "
" messages ++ "

Outcome:
" ++ outcome
    /\ replaced_each (combine user_placeholders names)
         (Example.context example) context
    /\ Forall2
         (fun message line =>
            exists text,
              replaced_each (combine user_placeholders names)
                (ActionExample.user message ++ ": "
                 ++ match Content.content (ActionExample.content message) with
                    | Some content => content
                    | None => "undefined"
                    end)
                text
              /\ line
                 = text
                   ++ match Content.action (ActionExample.content message)
                      with
                      | Some action =>
                          if String.eqb action "" then ""
                          else " (" ++ action ++ ")"
                      | None => ""
                      end)
         (Example.messages example) messages
    /\ replaced_each (combine user_placeholders names)
         (Example.outcome example) outcome.

(** The examples rendered in turn, the example number [i] (counted from
    0 through all evaluators) with the names number [5 * i + 1] to
    [5 * i + 5] of the sequence of names drawn. *)
Inductive examples_rendered (stream : list string)
  : nat -> list Example.t -> list string -> Prop :=
| examples_rendered_nil (i : nat) : examples_rendered stream i [] []
| examples_rendered_cons (i : nat) (example : Example.t)
    (examples : list Example.t) (rendered : string)
    (others : list string) :
    renders (firstn 5 (skipn (5 * i) stream)) example rendered ->
    examples_rendered stream (S i) examples others ->
    examples_rendered stream i (example :: examples) (rendered :: others).

(** The evaluators rendered in turn: the block of an evaluator is its
    examples rendered, an empty line between them. *)
Inductive evaluators_rendered (stream : list string)
  : nat -> list Evaluator.t -> list string -> Prop :=
| evaluators_rendered_nil (i : nat) : evaluators_rendered stream i [] []
| evaluators_rendered_cons (i : nat) (evaluator : Evaluator.t)
    (evaluators : list Evaluator.t) (rendered : list string)
    (blocks : list string) :
    examples_rendered stream i (Evaluator.examples evaluator) rendered ->
    evaluators_rendered stream
      (i + Datatypes.length (Evaluator.examples evaluator))
      evaluators blocks ->
    evaluators_rendered stream i (evaluator :: evaluators)
      (String.concat "

" rendered :: blocks).

(** *** A generator and an evaluator to run the renderer on *)

Module Demo.

(** The names of a fixed list in turn, then ["Zoe"] for ever. *)
Definition cycle : list string -> string * list string :=
  fun g =>
    match g with
    | [] => ("Zoe", [])
    | name :: g' => (name, g')
    end.

Definition five : list string := ["Ann"; "Bob"; "Cy"; "Dee"; "Eve"].

Definition source : list string :=
  ["Ann"; "Bob"; "Cy"; "Dee"; "Eve"; "Fay"; "Gus"; "Hal"; "Ida"; "Jo"].

Definition greeting : Example.t :=
  Example.mk
    "{{user1}} and {{user2}} meet; {{user1}} waves."
    [ActionExample.mk "{{user1}}" (Content.mk (Some "Hi {{user2}}") None);
     ActionExample.mk "{{user2}}"
       (Content.mk (Some "Hello {{user1}}, {{user1}}!") (Some "WAVE"))]
    "{{user2}} greeted {{user1}}.".

Definition farewell : Example.t :=
  Example.mk "{{user1}} leaves {{user3}}." [] "{{user3}} is alone.".

Definition summarization : Evaluator.t :=
  Evaluator.mk "summarization" "Summarize" "always" [greeting; farewell].

Definition goal : Evaluator.t :=
  Evaluator.mk "goal" "Track goals" "when a goal changes" [].

Definition plainExample : Example.t :=
  Example.mk "Two people talk."
    [ActionExample.mk "A" (Content.mk (Some "Hi {user1}") (Some "{{user1}}"))]
    "Nothing {{user6}} happened.".

End Demo.

End Evaluators.

(** * Properties of the memory manager *)

Module MemoryManagerSpec.

Import MemoryLib.

Section WithCollaborators.

Context {W Rejection : Type}.
Implicit Types (this : MemoryManager W Rejection) (st : State W).
Implicit Types (memory : MemoryRef) (m : Memory.t).

Ltac step :=
  cbn [call run bind mbind Prog_bind mret Prog_ret read await
       assign_embedding console_log after outcome final trace heap world].

Ltac answer :=
  match goal with
  | |- context [runtime ?this ?q ?h ?w] =>
      let x := fresh "x" in
      let e := fresh "e" in
      let h' := fresh "h'" in
      let w' := fresh "w'" in
      let E := fresh "Hanswer" in
      destruct (runtime this q h w) as [[[x|e] h'] w'] eqn:E
  end.

Lemma truthy_string_false (v : option string) :
  truthy_string v = false <-> v = None \/ v = Some EmptyString.
Proof.
  destruct v as [s|]; simpl.
  - rewrite negb_false_iff, String.eqb_eq. split.
    + intros ->. now right.
    + intros [H|H]; congruence.
  - split; [now left | reflexivity].
Qed.

Lemma truthy_string_true (v : option string) :
  truthy_string v = true <-> exists text, v = Some text /\ text <> EmptyString.
Proof.
  destruct v as [s|]; simpl.
  - rewrite negb_true_iff, String.eqb_neq. split.
    + intros H. now exists s.
    + intros (text & [= ->] & H). exact H.
  - split; [discriminate | intros (text & H & _); discriminate].
Qed.

(** C2. For every memory whose embedding is already set,
    [addEmbeddingToMemory] is fulfilled with the very reference it was
    given, awaits nothing, and leaves the heap (every field of the memory
    included) and the collaborators as they were. *)
Theorem addEmbeddingToMemory_embedded_is_identity this st memory m v :
  heap st !! memory = Some m ->
  Memory.embedding m = Some v ->
  call this (addEmbeddingToMemory this memory) st
  = {| outcome := Fulfilled memory; final := st; trace := [] |}.
Proof.
  intros Hm Hv. unfold addEmbeddingToMemory. step.
  rewrite Hm, Hv. reflexivity.
Qed.

(** C3. For a memory without embedding whose [content.content] is absent
    or empty, [addEmbeddingToMemory] is rejected with the error "Memory
    content is empty" before anything is awaited or assigned; and an error
    constructed by the method itself comes from no other memory. *)
Theorem addEmbeddingToMemory_empty_content this st memory m :
  heap st !! memory = Some m ->
  let r := call this (addEmbeddingToMemory this memory) st in
  (Memory.embedding m = None ->
   Content.content (Memory.content m) = None
   \/ Content.content (Memory.content m) = Some EmptyString ->
   r = {| outcome := Rejected EmptyContentError; final := st; trace := [] |})
  /\ (forall message,
        outcome r = Rejected (NewError message) ->
        Memory.embedding m = None
        /\ (Content.content (Memory.content m) = None
            \/ Content.content (Memory.content m) = Some EmptyString)).
Proof.
  intros Hm r. subst r. unfold addEmbeddingToMemory. step. rewrite Hm.
  split.
  - intros Hv Hc. rewrite Hv. cbn [truthy_array]. step. rewrite Hm.
    apply truthy_string_false in Hc. rewrite Hc. reflexivity.
  - intros message. destruct (Memory.embedding m) as [v|]; cbn [truthy_array].
    + step. discriminate.
    + step. rewrite Hm.
      destruct (truthy_string (Content.content (Memory.content m))) eqn:Ht.
      * cbn [negb]. step. answer; step.
        -- destruct (h' !! memory); step; discriminate.
        -- discriminate.
      * intros _. split; [reflexivity | now apply truthy_string_false].
Qed.

(** C1. For a memory without embedding whose [content.content] is a
    non-empty text, with an embedder that meets its contract and answers
    [v] for that text, [addEmbeddingToMemory] is fulfilled with the
    memory, whose [embedding] is then [v], of length 1536; the other
    fields are untouched. *)
Theorem addEmbeddingToMemory_attaches_embedding
    this st memory m text (v : list number) h' w' :
  embedder_contract (runtime this) ->
  keeps_objects (runtime this) ->
  heap st !! memory = Some m ->
  Memory.embedding m = None ->
  Content.content (Memory.content m) = Some text ->
  text <> EmptyString ->
  runtime this (runtime_embed (Some text)) (heap st) (world st)
  = (inl v, h', w') ->
  let r := call this (addEmbeddingToMemory this memory) st in
  outcome r = Fulfilled memory
  /\ (exists m0,
        h' !! memory = Some m0
        /\ heap (final r) !! memory = Some (Memory.set_embedding v m0))
  /\ (forall m', heap (final r) !! memory = Some m' ->
                 Memory.embedding m' = Some v)
  /\ length v = 1536.
Proof.
  intros Hembed Hkeep Hm Hv Hc Htext Hanswer r. subst r.
  assert (Ht : truthy_string (Some text) = true).
  { apply truthy_string_true. now exists text. }
  destruct (Hkeep (runtime_embed (Some text)) (heap st) (world st) memory)
    as [m0 Hm0]; [now exists m |].
  rewrite Hanswer in Hm0. cbn in Hm0.
  unfold addEmbeddingToMemory. step. rewrite Hm, Hv. cbn [truthy_array].
  step. rewrite Hm, Hc, Ht. cbn [negb]. step. rewrite Hanswer. step.
  rewrite Hm0. step.
  split; [reflexivity |]. split; [| split].
  - exists m0. split; [reflexivity | apply lookup_insert_eq].
  - intros m'. rewrite lookup_insert_eq. now intros [= <-].
  - exact (Hembed _ _ _ _ _ _ Hanswer).
Qed.

(** C9. Whenever [addEmbeddingToMemory] assigns an embedding, the text
    of the memory is non-empty and the vector assigned is the answer of
    the embedder to that text, awaited just before: the branch that would
    assign a copy of [embeddingZeroVector] is never taken. *)
Theorem addEmbeddingToMemory_assigns_embedder_answer
    this st memory r (v : list number) :
  In (Assigned r v) (trace (call this (addEmbeddingToMemory this memory) st)) ->
  exists m text h w,
    heap st !! memory = Some m
    /\ Content.content (Memory.content m) = Some text
    /\ text <> EmptyString
    /\ runtime this (runtime_embed (Some text)) (heap st) (world st)
       = (inl v, h, w)
    /\ r = memory
    /\ trace (call this (addEmbeddingToMemory this memory) st)
       = [Called (runtime_embed (Some text)) (inl v); Assigned memory v].
Proof.
  unfold addEmbeddingToMemory. step.
  destruct (heap st !! memory) as [m|] eqn:Hm; [| intros []].
  destruct (Memory.embedding m) as [v0|]; cbn [truthy_array]; step;
    [intros [] |].
  rewrite Hm.
  destruct (truthy_string (Content.content (Memory.content m))) eqn:Ht;
    cbn [negb]; step; [| intros []].
  apply truthy_string_true in Ht. destruct Ht as (text & Hc & Htext).
  rewrite Hc. answer; step.
  - destruct (h' !! memory) as [m0|]; step.
    + intros [H|[H|[]]]; [discriminate |]. injection H as <- <-.
      exists m, text, h', w'. repeat split; auto.
    + intros [H|[]]. discriminate.
  - intros [H|[]]. discriminate.
Qed.


(** C5. [getMemoryByContent] awaits exactly one call,
    [getMemoryByContent] of the adapter, with the table name of the
    manager, the threshold 2, the text it was given, the field "content",
    the sub-field "content" and the match count 10; it settles as that
    call does, with the very sequence the adapter answered. *)
Theorem getMemoryByContent_fixed_query this st (content : string) :
  let q :=
    databaseAdapter_getMemoryByContent
      {| query_table_name := tableName this;
         query_threshold := 2%float;
         query_input := content;
         query_field_name := "content";
         query_field_sub_name := "content";
         query_match_count := 10%float |} in
  call this (getMemoryByContent this content) st
  = let '(answer, h, w) := runtime this q (heap st) (world st) in
    {| outcome := settle answer;
       final := {| heap := h; world := w |};
       trace := [Called q answer] |}.
Proof.
  intros q. subst q. unfold getMemoryByContent. step.
  answer; reflexivity.
Qed.

(** C10. When the option [unique] is omitted, the one call
    [searchMemoriesByEmbedding] awaits carries the boolean [false] as its
    uniqueness flag. *)
Theorem searchMemoriesByEmbedding_unique_omitted
    this st (embedding : list number) opts :
  unique opts = None ->
  exists params answer,
    calls (trace (call this (searchMemoriesByEmbedding this embedding opts) st))
    = [Called (databaseAdapter_searchMemories params) answer]
    /\ sm_unique params = false
    /\ sm_embedding params = embedding.
Proof.
  intros Hu.
  destruct (runtime this
              (databaseAdapter_searchMemories
                 {| sm_tableName := tableName this;
                    sm_userIds := default_to [] (userIds opts);
                    sm_embedding := embedding;
                    sm_match_threshold := default_to defaultMatchThreshold
                                            (match_threshold opts);
                    sm_match_count := default_to defaultMatchCount (count opts);
                    sm_unique := false |})
              (heap st) (world st)) as [[answer h] w] eqn:Hanswer.
  eexists; exists answer.
  unfold searchMemoriesByEmbedding. step. rewrite Hu. cbn [truthy_boolean negb].
  rewrite Hanswer. step.
  destruct answer as [result|e]; step; [| now repeat split].
  destruct result as [|r0 result]; cbn [first_embedding_length]; step;
    [now repeat split |].
  destruct (h !! r0); step; now repeat split.
Qed.

Ltac settle_run :=
  unfold propagates; cbn;
  split; [lia | split; [| split]];
  [ intros ev e' Hin Hrej;
    repeat (destruct Hin as [<-|Hin]; [try discriminate Hrej |]);
    try contradiction;
    injection Hrej as ->; split; reflexivity
  | intros e' Hout; try discriminate Hout;
    injection Hout as ->;
    match goal with
    | |- exists q, [Called ?q0 _] = _ => exists q0; reflexivity
    end
  | intros message Hout; try discriminate Hout; reflexivity ].

Lemma perform_propagates this st op :
  propagates (call this (perform this op) st).
Proof.
  destruct op; unfold perform.
  - unfold addEmbeddingToMemory. step.
    destruct (heap st !! memory) as [m|] eqn:Hm; [| settle_run].
    destruct (Memory.embedding m); cbn [truthy_array]; step; [settle_run |].
    rewrite Hm.
    destruct (truthy_string (Content.content (Memory.content m)));
      cbn [negb]; step; [| settle_run].
    answer; step; [| settle_run].
    destruct (h' !! memory); step; settle_run.
  - unfold getMemoriesByIds. step. answer; step; settle_run.
  - unfold getMemoryByContent. step. answer; step; settle_run.
  - unfold searchMemoriesByEmbedding. step. answer; step; [| settle_run].
    destruct x as [|r0 x]; cbn [first_embedding_length]; step;
      [settle_run |].
    destruct (h' !! r0); step; settle_run.
  - unfold createMemory. step. answer; step; settle_run.
  - unfold removeMemory. step. answer; step; settle_run.
  - unfold removeAllMemoriesByUserIds. step. answer; step; settle_run.
  - unfold countMemoriesByUserIds. step. answer; step; settle_run.
Qed.

Lemma perform_local_error this st op message :
  outcome (call this (perform this op) st) = Rejected (NewError message) ->
  exists memory m,
    op = op_addEmbeddingToMemory memory
    /\ heap st !! memory = Some m
    /\ Memory.embedding m = None
    /\ truthy_string (Content.content (Memory.content m)) = false
    /\ message = "Memory content is empty"%string.
Proof.
  destruct op; unfold perform.
  - unfold addEmbeddingToMemory. step.
    destruct (heap st !! memory) as [m|] eqn:Hm; step; [| discriminate].
    destruct (Memory.embedding m) eqn:Hv; cbn [truthy_array]; step;
      [discriminate |].
    rewrite Hm.
    destruct (truthy_string (Content.content (Memory.content m))) eqn:Ht;
      cbn [negb]; step.
    + answer; step; [| discriminate].
      destruct (h' !! memory); step; discriminate.
    + intros [= <-]. now exists memory, m.
  - unfold getMemoriesByIds. step. answer; step; discriminate.
  - unfold getMemoryByContent. step. answer; step; discriminate.
  - unfold searchMemoriesByEmbedding. step. answer; step; [| discriminate].
    destruct x as [|r0 x]; cbn [first_embedding_length]; step;
      [discriminate |].
    destruct (h' !! r0); step; discriminate.
  - unfold createMemory. step. answer; step; discriminate.
  - unfold removeMemory. step. answer; step; discriminate.
  - unfold removeAllMemoriesByUserIds. step. answer; step; discriminate.
  - unfold countMemoriesByUserIds. step. answer; step; discriminate.
Qed.

(** C8. Every method of the manager awaits at most one call of a
    collaborator; when that call is rejected the method stops there and
    is rejected with the same value (no second attempt, no handling), and
    a method is rejected with a collaborator's value only in that way.
    The only error a method constructs itself is the one of
    [addEmbeddingToMemory] for a memory without embedding and without
    text, raised before anything is awaited. *)
Theorem failures_propagate_unchanged this st op :
  let r := call this (perform this op) st in
  length (calls (trace r)) <= 1
  /\ (forall ev e,
        In ev (trace r) -> rejection_of ev = Some e ->
        outcome r = Rejected (Foreign e) /\ last (trace r) = Some ev)
  /\ (forall e,
        outcome r = Rejected (Foreign e) ->
        exists q, calls (trace r) = [Called q (inr e)])
  /\ (forall message,
        outcome r = Rejected (NewError message) ->
        trace r = []
        /\ exists memory m,
             op = op_addEmbeddingToMemory memory
             /\ heap st !! memory = Some m
             /\ Memory.embedding m = None
             /\ truthy_string (Content.content (Memory.content m)) = false
             /\ message = "Memory content is empty"%string).
Proof.
  intros r. destruct (perform_propagates this st op) as (H1 & H2 & H3 & H4).
  repeat apply conj; try assumption.
  intros message Hout. split.
  - now apply (H4 message).
  - now apply (perform_local_error this st op message).
Qed.

End WithCollaborators.

(** *** The theorems at the demonstration runtime *)

Lemma Demo_runtime_embedder_contract : embedder_contract Demo.runtime.
Proof.
  intros input h w v h' w' H. injection H as Hv _ _. rewrite <- Hv.
  vm_compute. reflexivity.
Qed.

Lemma Demo_runtime_keeps_objects : keeps_objects Demo.runtime.
Proof. intros q h w r H. destruct q; exact H. Qed.

Lemma addEmbeddingToMemory_embedded_is_identity_witness :
  call Demo.manager (addEmbeddingToMemory Demo.manager 8%positive) Demo.state
  = {| outcome := Fulfilled 8%positive; final := Demo.state; trace := [] |}.
Proof.
  apply (addEmbeddingToMemory_embedded_is_identity
           Demo.manager Demo.state 8%positive Demo.embedded
           [1%float; 2%float]);
    reflexivity.
Defined.

Lemma addEmbeddingToMemory_empty_content_witness :
  call Demo.manager (addEmbeddingToMemory Demo.manager 9%positive) Demo.state
  = {| outcome := Rejected EmptyContentError;
       final := Demo.state; trace := [] |}.
Proof.
  apply (addEmbeddingToMemory_empty_content
           Demo.manager Demo.state 9%positive Demo.blank);
    [reflexivity | reflexivity | right; reflexivity].
Defined.

Lemma addEmbeddingToMemory_attaches_embedding_witness :
  let r :=
    call Demo.manager (addEmbeddingToMemory Demo.manager 7%positive)
      Demo.state in
  outcome r = Fulfilled 7%positive
  /\ (exists m0,
        heap Demo.state !! 7%positive = Some m0
        /\ heap (final r) !! 7%positive
           = Some (Memory.set_embedding (repeat 1%float 1536) m0))
  /\ (forall m', heap (final r) !! 7%positive = Some m' ->
                 Memory.embedding m' = Some (repeat 1%float 1536))
  /\ length (repeat 1%float 1536) = 1536.
Proof.
  apply (addEmbeddingToMemory_attaches_embedding
           Demo.manager Demo.state 7%positive Demo.hello "hello"
           (repeat 1%float 1536) (heap Demo.state) 1
           Demo_runtime_embedder_contract Demo_runtime_keeps_objects);
    [reflexivity | reflexivity | reflexivity | discriminate | reflexivity].
Defined.

Lemma addEmbeddingToMemory_assigns_embedder_answer_witness :
  exists m text h w,
    heap Demo.state !! 7%positive = Some m
    /\ Content.content (Memory.content m) = Some text
    /\ text <> EmptyString
    /\ Demo.runtime (runtime_embed (Some text)) (heap Demo.state) 0
       = (inl (repeat 1%float 1536), h, w)
    /\ 7%positive = 7%positive
    /\ trace (call Demo.manager (addEmbeddingToMemory Demo.manager 7%positive)
                Demo.state)
       = [Called (runtime_embed (Some text)) (inl (repeat 1%float 1536));
          Assigned 7%positive (repeat 1%float 1536)].
Proof.
  apply (addEmbeddingToMemory_assigns_embedder_answer
           Demo.manager Demo.state 7%positive 7%positive
           (repeat 1%float 1536)).
  right. left. reflexivity.
Defined.


Lemma searchMemoriesByEmbedding_unique_omitted_witness :
  exists params answer,
    calls (trace (call Demo.manager
                    (searchMemoriesByEmbedding Demo.manager [1%float]
                       {| match_threshold := Some 1%float; count := None;
                          userIds := Some ["u1"%string]; unique := None |})
                    Demo.state))
    = [Called (databaseAdapter_searchMemories params) answer]
    /\ sm_unique params = false
    /\ sm_embedding params = [1%float].
Proof.
  apply (searchMemoriesByEmbedding_unique_omitted
           Demo.manager Demo.state [1%float]
           {| match_threshold := Some 1%float; count := None;
              userIds := Some ["u1"%string]; unique := None |}).
  reflexivity.
Defined.

(** *** The methods run *)

Example search_with_defaults :
  trace (call Demo.manager
           (searchMemoriesByEmbedding Demo.manager [1%float]
              {| match_threshold := None; count := None;
                 userIds := None; unique := None |})
           Demo.state)
  = [Logged [LogString "embedding length to search is"; LogLength 1];
     Logged [LogString "opts are";
             LogOpts {| match_threshold := None; count := None;
                        userIds := None; unique := None |}];
     Logged [LogOpts {| match_threshold := None; count := None;
                        userIds := None; unique := None |}];
     Called
       (databaseAdapter_searchMemories
          {| sm_tableName := "memories";
             sm_userIds := [];
             sm_embedding := [1%float];
             sm_match_threshold := defaultMatchThreshold;
             sm_match_count := 10%float;
             sm_unique := false |})
       (inl [7%positive]);
     Logged [LogString "result.embedding.length"; LogUndefined]].
Proof. reflexivity. Qed.

Example offline_embedder :
  call (constructor "memories" Demo.offline)
    (addEmbeddingToMemory (constructor "memories" Demo.offline) 7%positive)
    Demo.state
  = {| outcome := Rejected (Foreign "503"%string);
       final := {| heap := heap Demo.state; world := 1 |};
       trace := [Called (runtime_embed (Some "hello"%string))
                   (inr "503"%string)] |}.
Proof. reflexivity. Qed.

Example missing_content :
  outcome (call Demo.manager (addEmbeddingToMemory Demo.manager 10%positive)
             Demo.state)
  = Rejected EmptyContentError.
Proof. reflexivity. Qed.

End MemoryManagerSpec.

(** * Properties of the example renderer *)

Module EvaluatorsSpec.

Import Evaluators.

Local Open Scope string_scope.
#[local] Arguments String.append !_ _ / : simpl nomatch.

(** ** Strings *)

Lemma append_nil_r (s : string) : s ++ "" = s.
Proof. induction s as [|c s IH]; simpl; [reflexivity | now rewrite IH]. Qed.

Lemma append_assoc (s t u : string) : (s ++ t) ++ u = s ++ t ++ u.
Proof. induction s as [|c s IH]; simpl; [reflexivity | now rewrite IH]. Qed.

Lemma length_append (s t : string) :
  String.length (s ++ t) = String.length s + String.length t.
Proof. induction s as [|c s IH]; simpl; [reflexivity | now rewrite IH]. Qed.

Lemma append_eq_split (a b c d : string) :
  a ++ b = c ++ d ->
  (exists e, a = c ++ e /\ d = e ++ b) \/ (exists e, c = a ++ e /\ b = e ++ d).
Proof.
  revert c. induction a as [|x a IH]; intros c H.
  - right. exists c. now split.
  - destruct c as [|y c].
    + left. exists (String x a). now split.
    + simpl in H. injection H as -> H.
      destruct (IH c H) as [(e & -> & ->)|(e & -> & ->)].
      * left. exists e. now split.
      * right. exists e. now split.
Qed.

Lemma prefix_cons (c : ascii) (p : string) (d : ascii) (s : string) :
  String.prefix (String c p) (String d s)
  = if ascii_dec c d then String.prefix p s else false.
Proof. reflexivity. Qed.

Lemma prefix_true (p s : string) :
  String.prefix p s = true <-> exists t, s = p ++ t.
Proof.
  revert s. induction p as [|c p IH]; intros s.
  - split; [intros _; now exists s | intros _; now destruct s].
  - destruct s as [|d s].
    + split; [discriminate | intros (t & H); discriminate].
    + rewrite prefix_cons. destruct (ascii_dec c d) as [->|Hcd].
      * rewrite IH. split; intros (t & H); exists t.
        -- simpl. now rewrite H.
        -- simpl in H. now injection H.
      * split; [discriminate | intros (t & H)]. simpl in H.
        injection H as H _. now destruct Hcd.
Qed.

Lemma prefix_append (p t : string) : String.prefix p (p ++ t) = true.
Proof. apply prefix_true. now exists t. Qed.

Lemma string_drop_append (p t : string) :
  string_drop (String.length p) (p ++ t) = t.
Proof.
  induction p as [|c p IH]; simpl; [now destruct t | exact IH].
Qed.

Lemma occurs_of_prefix (p s : string) : String.prefix p s = true -> occurs p s.
Proof. intros (t & ->)%prefix_true. now exists "", t. Qed.

Lemma absent_tail (p : string) (c : ascii) (s : string) :
  absent p (String c s) -> absent p s.
Proof.
  intros H (a & b & ->). apply H. now exists (String c a), b.
Qed.

Lemma absent_empty (p : string) : p <> "" -> absent p "".
Proof.
  intros Hp (a & b & H). destruct a; [| discriminate].
  destruct p; [now apply Hp | discriminate].
Qed.

Lemma prefix_of_occurs_head (p : string) (c : ascii) (s : string) :
  occurs p (String c s) -> absent p s -> String.prefix p (String c s) = true.
Proof.
  intros (a & b & H) Hs. destruct a as [|d a].
  - simpl in H. rewrite H. apply prefix_append.
  - simpl in H. injection H as _ ->. destruct Hs. now exists a, b.
Qed.

(** Inside a piece free of [p] that is followed by [p], no occurrence of
    an unbordered [p] begins. *)
Lemma prefix_in_piece (p x t : string) :
  unbordered p -> absent p x -> x <> "" ->
  String.prefix p (x ++ p ++ t) = false.
Proof.
  intros Hp Hx Hne.
  destruct (String.prefix p (x ++ p ++ t)) eqn:E; [exfalso | reflexivity].
  apply prefix_true in E. destruct E as (u & E).
  destruct (append_eq_split _ _ _ _ E) as [(e & -> & _)|(e & Hpe & He)].
  - apply Hx. now exists "", e.
  - destruct (append_eq_split _ _ _ _ He) as [(f & Hpf & _)|(f & Hef & _)].
    + assert (Hlen : String.length p = String.length x + String.length e)
        by (rewrite Hpe at 1; apply length_append).
      destruct e as [|c e].
      * rewrite append_nil_r in Hpe. subst x. apply Hx.
        exists "", "". now rewrite append_nil_r.
      * assert (Hn : 0 < String.length x < String.length p).
        { destruct x; [now destruct Hne |]. simpl in *. lia. }
        specialize (Hp _ Hn). rewrite Hpe in Hp at 1.
        rewrite string_drop_append in Hp. rewrite Hpf in Hp.
        now rewrite prefix_append in Hp.
    + assert (Hlen : String.length p
                     = String.length x + (String.length p + String.length f)).
      { rewrite Hpe at 1. rewrite length_append, Hef, length_append.
        reflexivity. }
      destruct x; [now destruct Hne |]. simpl in Hlen. lia.
Qed.

Lemma unborderedb_correct (p : string) : unborderedb p = true -> unbordered p.
Proof.
  unfold unborderedb, unbordered. rewrite forallb_forall. intros H n Hn.
  apply negb_true_iff, H, in_seq. lia.
Qed.

(** ** The scan of [replaceAll] *)

Lemma scan_empty (p name : string) (skip : nat) (before : string) :
  replaceAll_scan p name skip before "" = "".
Proof. reflexivity. Qed.

Lemma scan_skip_cons (p name : string) (skip : nat) (before : string)
    (c : ascii) (t : string) :
  replaceAll_scan p name (S skip) before (String c t)
  = replaceAll_scan p name skip (before ++ String c "") t.
Proof. reflexivity. Qed.

Lemma scan_look (p name : string) (before : string) (c : ascii) (t : string) :
  replaceAll_scan p name 0 before (String c t)
  = if String.prefix p (String c t) then
      GetSubstitution p before
        (string_drop (String.length p) (String c t)) name
      ++ replaceAll_scan p name (String.length p - 1)
           (before ++ String c "") t
    else String c (replaceAll_scan p name 0 (before ++ String c "") t).
Proof. reflexivity. Qed.

(** Passing over the rest of a match. *)
Lemma scan_skip (p name : string) (u before t : string) :
  replaceAll_scan p name (String.length u) before (u ++ t)
  = replaceAll_scan p name 0 (before ++ u) t.
Proof.
  revert before. induction u as [|c u IH]; intros before.
  - now rewrite append_nil_r.
  - change (String c u ++ t) with (String c (u ++ t)).
    change (String.length (String c u)) with (S (String.length u)).
    rewrite scan_skip_cons, IH, append_assoc. reflexivity.
Qed.

(** At an occurrence of the search string: it is replaced, and the scan
    goes on after it. *)
Lemma scan_match (p name : string) (before t : string) :
  p <> "" ->
  replaceAll_scan p name 0 before (p ++ t)
  = GetSubstitution p before t name
    ++ replaceAll_scan p name 0 (before ++ p) t.
Proof.
  intros Hp. destruct p as [|c u] eqn:E; [now destruct Hp |].
  change (String c u ++ t) with (String c (u ++ t)).
  rewrite scan_look.
  change (String c (u ++ t)) with (String c u ++ t).
  rewrite prefix_append, string_drop_append.
  replace (String.length (String c u) - 1) with (String.length u)
    by (simpl; lia).
  rewrite scan_skip, append_assoc. reflexivity.
Qed.

(** Where the search string does not begin, the character is kept. *)
Lemma scan_keep (p name : string) (before : string) (c : ascii) (t : string) :
  String.prefix p (String c t) = false ->
  replaceAll_scan p name 0 before (String c t)
  = String c (replaceAll_scan p name 0 (before ++ String c "") t).
Proof. intros H. now rewrite scan_look, H. Qed.

(** A text free of the search string is returned as it is. *)
Lemma scan_absent (p name : string) (x before : string) :
  absent p x -> replaceAll_scan p name 0 before x = x.
Proof.
  revert before. induction x as [|c x IH]; intros before Hx.
  - reflexivity.
  - rewrite scan_keep.
    + now rewrite IH by (now apply absent_tail in Hx).
    + destruct (String.prefix p (String c x)) eqn:E; [| reflexivity].
      now apply occurs_of_prefix in E.
Qed.

(** A piece free of the search string that is followed by it is kept up
    to the occurrence. *)
Lemma scan_piece (p name : string) (x before t : string) :
  unbordered p -> absent p x ->
  replaceAll_scan p name 0 before (x ++ p ++ t)
  = x ++ replaceAll_scan p name 0 (before ++ x) (p ++ t).
Proof.
  intros Hp. revert before. induction x as [|c x IH]; intros before Hx.
  - now rewrite append_nil_r.
  - change (String c x ++ p ++ t) with (String c (x ++ p ++ t)).
    rewrite scan_keep.
    + rewrite IH by (now apply absent_tail in Hx).
      rewrite append_assoc. reflexivity.
    + change (String c (x ++ p ++ t)) with (String c x ++ p ++ t).
      now apply prefix_in_piece.
Qed.

Lemma GetSubstitution_plain (matched before after name : string) :
  plain name -> GetSubstitution matched before after name = name.
Proof.
  unfold plain. induction name as [|c name IH]; intros H.
  - reflexivity.
  - simpl in H. apply orb_false_iff in H. destruct H as [Hc H].
    simpl. rewrite Hc, IH by exact H. reflexivity.
Qed.

Lemma weave_more (p name before x y : string) (rest : list string) :
  weave p name before (x :: y :: rest)
  = x ++ GetSubstitution p (before ++ x) (join p (y :: rest)) name
    ++ weave p name (before ++ x ++ p) (y :: rest).
Proof. reflexivity. Qed.

Lemma join_more (p x y : string) (rest : list string) :
  join p (x :: y :: rest) = x ++ p ++ join p (y :: rest).
Proof. reflexivity. Qed.

(** Every occurrence of an unbordered search string is replaced by the
    expansion of the replacement text; the pieces between the occurrences
    are kept. *)
Lemma scan_weave (p name : string) (pieces : list string) (before : string) :
  p <> "" -> unbordered p ->
  Forall (absent p) pieces ->
  replaceAll_scan p name 0 before (join p pieces)
  = weave p name before pieces.
Proof.
  intros Hp Hu Hpieces. revert before.
  induction Hpieces as [|x rest Hx Hrest IH]; intros before.
  - reflexivity.
  - destruct rest as [|y rest].
    + simpl. now apply scan_absent.
    + rewrite join_more, weave_more.
      rewrite scan_piece, scan_match, IH by assumption.
      now rewrite (append_assoc before x p).
Qed.

(** A plain name expands to itself. *)
Lemma weave_plain (p name before : string) (pieces : list string) :
  plain name -> weave p name before pieces = join name pieces.
Proof.
  intros Hname. revert before.
  induction pieces as [|x rest IH]; intros before; [reflexivity |].
  destruct rest as [|y rest]; [reflexivity |].
  now rewrite join_more, weave_more, GetSubstitution_plain, IH.
Qed.

Lemma replaceAll_weave (p name : string) (pieces : list string) :
  p <> "" -> unbordered p ->
  Forall (absent p) pieces ->
  replaceAll (join p pieces) p name = weave p name "" pieces.
Proof.
  intros Hp Hu Hpieces. unfold replaceAll.
  destruct (String.eqb_spec p ""); [contradiction |].
  now apply scan_weave.
Qed.

Lemma replaceAll_join (p name : string) (pieces : list string) :
  p <> "" -> unbordered p -> plain name ->
  Forall (absent p) pieces ->
  replaceAll (join p pieces) p name = join name pieces.
Proof.
  intros Hp Hu Hname Hpieces.
  rewrite replaceAll_weave by assumption. now apply weave_plain.
Qed.

Lemma replaceAll_absent (s p name : string) :
  p <> "" -> absent p s -> replaceAll s p name = s.
Proof.
  intros Hp Hs. unfold replaceAll.
  destruct (String.eqb_spec p ""); [contradiction |].
  now apply scan_absent.
Qed.

(** Every text is cut by a search string into pieces free of it. *)
Lemma pieces_exist (p s : string) :
  p <> "" ->
  exists pieces, s = join p pieces /\ Forall (absent p) pieces.
Proof.
  intros Hp.
  enough (exists x rest, s = join p (x :: rest)
                         /\ Forall (absent p) (x :: rest))
    as (x & rest & H); [now exists (x :: rest) |].
  induction s as [|c s (x & rest & Hs & Hall)].
  - exists "", []. split; [reflexivity |].
    constructor; [now apply absent_empty | constructor].
  - assert (Hjoin : forall z, join p (z :: rest)
                              = z ++ match rest with
                                     | [] => ""
                                     | _ => p ++ join p rest
                                     end).
    { intros z. destruct rest; simpl;
        [now rewrite append_nil_r | reflexivity]. }
    inversion Hall as [|? ? Hx Hrest]; subst.
    destruct (String.prefix p (String c x)) eqn:E.
    + apply prefix_true in E. destruct E as (y & E).
      exists "", (y :: rest). split.
      * change (join p ("" :: y :: rest)) with (p ++ join p (y :: rest)).
        rewrite !Hjoin, <- append_assoc, <- E. reflexivity.
      * constructor; [now apply absent_empty |].
        constructor; [| exact Hrest].
        intros (a & b & ->). destruct p as [|d u]; [now destruct Hp |].
        simpl in E. injection E as _ ->. apply Hx.
        exists (u ++ a), b. now rewrite append_assoc.
    + exists (String c x), rest. split.
      * rewrite !Hjoin. reflexivity.
      * constructor; [| exact Hrest].
        intros Hocc. apply prefix_of_occurs_head in Hocc; [| exact Hx].
        congruence.
Qed.

(** ** The placeholders *)

Lemma placeholder_nonempty (i : nat) : placeholder i <> "".
Proof. unfold placeholder. simpl. discriminate. Qed.

Lemma placeholder_unbordered (i : nat) : i < 5 -> unbordered (placeholder i).
Proof.
  intros Hi. apply unborderedb_correct.
  do 5 (destruct i as [|i]; [vm_compute; reflexivity |]). lia.
Qed.

(** ** One example *)

Lemma forEach_replaced (names : list string) (i : nat) (s : string) :
  i + Datatypes.length names <= 5 ->
  Forall plain names ->
  replaced_in_turn i names s
    (forEach (fun name index text => replaceAll text (placeholder index) name)
       names i s).
Proof.
  intros Hlen Hplain. revert i s Hlen.
  induction Hplain as [|name names Hname Hnames IH]; intros i s Hlen.
  - constructor.
  - simpl in Hlen.
    destruct (pieces_exist (placeholder i) s (placeholder_nonempty i))
      as (pieces & -> & Hpieces).
    apply replaced_next; [exact Hpieces |].
    cbn [forEach].
    rewrite replaceAll_join;
      [| apply placeholder_nonempty | apply placeholder_unbordered; lia
       | exact Hname | exact Hpieces].
    apply IH. lia.
Qed.

Lemma substitute_replaced (names : list string) (s : string) :
  Datatypes.length names <= 5 ->
  Forall plain names ->
  replaced_in_turn 0 names s (substitute names s).
Proof. intros Hlen Hplain. now apply forEach_replaced. Qed.

(** The loop over the names treats the context and the outcome alike. *)
Lemma forEach_pair (names : list string) (i : nat) (c o : string) :
  forEach
    (fun name index '(formattedContext, formattedOutcome) =>
       (replaceAll formattedContext (placeholder index) name,
        replaceAll formattedOutcome (placeholder index) name))
    names i (c, o)
  = (forEach (fun name index text => replaceAll text (placeholder index) name)
       names i c,
     forEach (fun name index text => replaceAll text (placeholder index) name)
       names i o).
Proof.
  revert i c o. induction names as [|name names IH]; intros i c o.
  - reflexivity.
  - cbn [forEach]. apply IH.
Qed.

Lemma formatMessage_substitute (names : list string)
    (message : ActionExample.t) :
  formatMessage names message
  = substitute names (messageText message) ++ actionSuffix message.
Proof.
  unfold formatMessage, substitute, messageText, actionSuffix.
  f_equal.
  destruct (Content.action (ActionExample.content message)) as [action|];
    [| reflexivity].
  unfold truthy_string, interpolate.
  now destruct (String.eqb action "").
Qed.

Lemma formatExampleWith_layout (names : list string) (example : Example.t) :
  formatExampleWith names example
  = layout
      (substitute names (Example.context example))
      (map (fun message =>
              substitute names (messageText message) ++ actionSuffix message)
         (Example.messages example))
      (substitute names (Example.outcome example)).
Proof.
  unfold formatExampleWith. rewrite forEach_pair. unfold layout, substitute.
  do 9 f_equal. apply map_ext. intros message.
  apply formatMessage_substitute.
Qed.

(** *** The placeholders as they are written *)

Lemma placeholders_written : map placeholder (seq 0 5) = user_placeholders.
Proof. reflexivity. Qed.

Lemma skipn_user_placeholders (i : nat) :
  i < 5 ->
  skipn i user_placeholders = placeholder i :: skipn (S i) user_placeholders.
Proof. intros Hi. do 5 (destruct i as [|i]; [reflexivity |]). lia. Qed.

Lemma in_user_placeholders (p : string) :
  In p user_placeholders -> exists i, i < 5 /\ p = placeholder i.
Proof.
  intros H. cbn in H.
  destruct H as [<-|[<-|[<-|[<-|[<-|[]]]]]];
    [exists 0 | exists 1 | exists 2 | exists 3 | exists 4];
    (split; [lia | reflexivity]).
Qed.

Lemma replaced_each_of_turn (i : nat) (names : list string) (s s' : string) :
  replaced_in_turn i names s s' ->
  i + Datatypes.length names <= 5 ->
  replaced_each (combine (skipn i user_placeholders) names) s s'.
Proof.
  induction 1 as [i s|i name names pieces s' Hpieces Hrest IH]; intros Hlen.
  - rewrite List.combine_nil. constructor.
  - cbn [Datatypes.length] in Hlen.
    rewrite skipn_user_placeholders by lia. cbn [combine].
    apply (replaced_one (placeholder i) name _ pieces s' Hpieces).
    apply IH. lia.
Qed.

Lemma substitute_replaced_each (names : list string) (s : string) :
  Datatypes.length names <= 5 ->
  Forall plain names ->
  replaced_each (combine user_placeholders names) s (substitute names s).
Proof.
  intros Hlen Hplain.
  apply (replaced_each_of_turn 0 names s (substitute names s));
    [now apply substitute_replaced | lia].
Qed.

(** The layout of the substituted texts is a rendering with the names. *)
Lemma layout_renders (names : list string) (example : Example.t) :
  Datatypes.length names <= 5 ->
  Forall plain names ->
  renders names example
    (layout
       (substitute names (Example.context example))
       (map (fun message =>
               substitute names (messageText message) ++ actionSuffix message)
          (Example.messages example))
       (substitute names (Example.outcome example))).
Proof.
  intros Hlen Hplain.
  exists (substitute names (Example.context example)),
    (map (fun message =>
            substitute names (messageText message) ++ actionSuffix message)
       (Example.messages example)),
    (substitute names (Example.outcome example)).
  split; [reflexivity |].
  split; [now apply substitute_replaced_each |].
  split; [| now apply substitute_replaced_each].
  induction (Example.messages example) as [|message rest IH];
    cbn [map]; constructor; [| exact IH].
  exists (substitute names (messageText message)).
  split; [now apply (substitute_replaced_each names (messageText message)) |].
  reflexivity.
Qed.

(** C7. Rendering an example with five plain names always gives a
    text: the example laid out, where in the context, in every message
    string and in the outcome every occurrence of [{{user1}}] is
    replaced by the first name, then every occurrence of [{{user2}}] by
    the second, and so on to [{{user5}}] and the fifth.  The placeholders
    the code looks for are these five texts; each is replaced wherever it
    stands, not only where it stands first (whatever the name, each
    occurrence is replaced by what the name expands to; a plain name
    expands to itself); and a placeholder that does not occur leaves the
    text as it is, whatever the name. *)
Theorem formatExampleWith_replaces_every_occurrence
    (names : list string) (example : Example.t) :
  Datatypes.length names = 5 ->
  Forall plain names ->
  renders names example (formatExampleWith names example)
  /\ map placeholder (seq 0 5)
     = ["{{user1}}"; "{{user2}}"; "{{user3}}"; "{{user4}}"; "{{user5}}"]
  /\ (forall p name pieces,
        In p ["{{user1}}"; "{{user2}}"; "{{user3}}"; "{{user4}}";
              "{{user5}}"] ->
        plain name -> Forall (absent p) pieces ->
        replaceAll (String.concat p pieces) p name
        = String.concat name pieces)
  /\ (forall p name pieces,
        In p ["{{user1}}"; "{{user2}}"; "{{user3}}"; "{{user4}}";
              "{{user5}}"] ->
        Forall (absent p) pieces ->
        replaceAll (String.concat p pieces) p name = weave p name "" pieces)
  /\ (forall p name s,
        In p ["{{user1}}"; "{{user2}}"; "{{user3}}"; "{{user4}}";
              "{{user5}}"] ->
        absent p s -> replaceAll s p name = s).
Proof.
  intros Hlen Hplain. repeat apply conj.
  - rewrite formatExampleWith_layout.
    apply layout_renders; [lia | exact Hplain].
  - reflexivity.
  - intros p name pieces Hp Hname Hpieces.
    apply in_user_placeholders in Hp. destruct Hp as (i & Hi & ->).
    apply replaceAll_join;
      [apply placeholder_nonempty | now apply placeholder_unbordered
      | exact Hname | exact Hpieces].
  - intros p name pieces Hp Hpieces.
    apply in_user_placeholders in Hp. destruct Hp as (i & Hi & ->).
    apply replaceAll_weave;
      [apply placeholder_nonempty | now apply placeholder_unbordered
      | exact Hpieces].
  - intros p name s Hp Hs.
    apply in_user_placeholders in Hp. destruct Hp as (i & Hi & ->).
    apply replaceAll_absent; [apply placeholder_nonempty | exact Hs].
Qed.

Lemma formatExampleWith_replaces_every_occurrence_witness :
  renders Demo.five Demo.greeting
    (formatExampleWith Demo.five Demo.greeting).
Proof.
  apply (formatExampleWith_replaces_every_occurrence Demo.five Demo.greeting);
    [reflexivity | repeat constructor].
Defined.

(** *** The renderer run *)

Example render_greeting :
  formatExampleWith Demo.five Demo.greeting
  = "Context:
Ann and Bob meet; Ann waves.

Messages:
Ann: Hi Bob
Bob: Hello Ann, Ann! (WAVE)

Outcome:
Bob greeted Ann.".
Proof. vm_compute. reflexivity. Qed.

Example render_summarization :
  fst (formatEvaluatorExamples Demo.cycle [Demo.summarization] Demo.source)
  = "Context:
Ann and Bob meet; Ann waves.

Messages:
Ann: Hi Bob
Bob: Hello Ann, Ann! (WAVE)

Outcome:
Bob greeted Ann.

Context:
Fay leaves Hal.

Messages:


Outcome:
Hal is alone.".
Proof. vm_compute. reflexivity. Qed.

Example replaceAll_not_only_first :
  replaceAll "{{user1}}{{user1}} {{user10}} {{user1}" (placeholder 0) "Ann"
  = "AnnAnn {{user10}} {{user1}".
Proof. vm_compute. reflexivity. Qed.

(** A replacement text with a dollar sign is expanded, as [replaceAll]
    does with any replacement string: such a text is not a plain name. *)
Example replaceAll_expands_dollar :
  replaceAll "a {{user1}} b" (placeholder 0) "[$&|$`|$'|$$|$1]"
  = "a [{{user1}}|a | b|$|$1] b".
Proof. vm_compute. reflexivity. Qed.

Example replaceAll_empty_search : replaceAll "abc" "" "-" = "-a-b-c-".
Proof. vm_compute. reflexivity. Qed.

Example replaceAll_leftmost : replaceAll "aaa" "aa" "b" = "ba".
Proof. vm_compute. reflexivity. Qed.

(** ** The names drawn *)

Section Drawing.

Context {G : Type} (gen : G -> string * G).

Lemma Array_from_draws (n : nat) (g : G) :
  Array_from gen n g = (draws gen n g, advance gen n g).
Proof.
  revert g. induction n as [|n IH]; intros g; simpl; [reflexivity |].
  destruct (gen g) as [name g1]. now rewrite IH.
Qed.

Lemma advance_add (a b : nat) (g : G) :
  advance gen (a + b) g = advance gen b (advance gen a g).
Proof. revert g. induction a as [|a IH]; intros g; simpl; auto. Qed.

Lemma draws_add (a b : nat) (g : G) :
  draws gen (a + b) g = (draws gen a g ++ draws gen b (advance gen a g))%list.
Proof.
  revert g. induction a as [|a IH]; intros g; simpl; [reflexivity |].
  now rewrite IH.
Qed.

Lemma length_draws (n : nat) (g : G) : Datatypes.length (draws gen n g) = n.
Proof. revert g. induction n as [|n IH]; intros g; simpl; auto. Qed.

(** The names of the example number [i] are the five drawn after the
    [5 * i] names of the examples before it. *)
Lemma names_of_example_draws (n i : nat) (g : G) :
  i < n ->
  names_of_example (draws gen (5 * n) g) i
  = draws gen 5 (advance gen (5 * i) g).
Proof.
  intros Hi. unfold names_of_example.
  replace (5 * n) with (5 * i + (5 + 5 * (n - i - 1))) by lia.
  rewrite draws_add.
  rewrite List.skipn_app, List.skipn_all2 by (rewrite length_draws; lia).
  rewrite length_draws, Nat.sub_diag, List.skipn_O, List.app_nil_l.
  rewrite draws_add.
  rewrite List.firstn_app, List.firstn_all2 by (rewrite length_draws; lia).
  rewrite length_draws, Nat.sub_diag, List.firstn_O.
  apply List.app_nil_r.
Qed.

Lemma formatExample_draws (example : Example.t) (g : G) :
  formatExample gen example g
  = (formatExampleWith (draws gen 5 g) example, advance gen 5 g).
Proof. unfold formatExample. now rewrite Array_from_draws. Qed.

Lemma map_drawing_examples (examples : list Example.t) (n i : nat) (g : G) :
  i + Datatypes.length examples <= n ->
  map_drawing (formatExample gen) examples (advance gen (5 * i) g)
  = (render_examples (draws gen (5 * n) g) i examples,
     advance gen (5 * (i + Datatypes.length examples)) g).
Proof.
  revert i. induction examples as [|example rest IH]; intros i Hi.
  - cbn [map_drawing render_examples Datatypes.length].
    now rewrite Nat.add_0_r.
  - cbn [map_drawing render_examples Datatypes.length] in *.
    rewrite formatExample_draws, <- advance_add.
    replace (5 * i + 5) with (5 * S i) by lia.
    rewrite IH by lia.
    rewrite <- names_of_example_draws with (n := n) by lia.
    rewrite formatExampleWith_layout.
    replace (S i + Datatypes.length rest)
      with (i + S (Datatypes.length rest)) by lia.
    reflexivity.
Qed.

Lemma count_examples_cons (evaluator : Evaluator.t)
    (rest : list Evaluator.t) :
  count_examples (evaluator :: rest)
  = Datatypes.length (Evaluator.examples evaluator) + count_examples rest.
Proof. reflexivity. Qed.

Lemma map_drawing_evaluators (evaluators : list Evaluator.t) (n i : nat)
    (g : G) :
  i + count_examples evaluators <= n ->
  map_drawing
    (fun evaluator g =>
       let '(rendered, g1) :=
         map_drawing (formatExample gen) (Evaluator.examples evaluator) g in
       (join (LF ++ LF) rendered, g1))
    evaluators (advance gen (5 * i) g)
  = (render_evaluators (draws gen (5 * n) g) i evaluators,
     advance gen (5 * (i + count_examples evaluators)) g).
Proof.
  revert i. induction evaluators as [|evaluator rest IH]; intros i Hi.
  - change (count_examples []) with 0.
    cbn [map_drawing render_evaluators]. now rewrite Nat.add_0_r.
  - rewrite count_examples_cons in *.
    cbn [map_drawing render_evaluators].
    rewrite (map_drawing_examples _ n) by lia.
    rewrite IH by lia.
    rewrite Nat.add_assoc. reflexivity.
Qed.

Lemma Forall_names_of_example (P : string -> Prop) (stream : list string)
    (i : nat) :
  Forall P stream -> Forall P (names_of_example stream i).
Proof.
  intros H. unfold names_of_example.
  now apply Forall_take, Forall_drop.
Qed.

Lemma render_examples_rendered (stream : list string) (i : nat)
    (examples : list Example.t) :
  Forall plain stream ->
  examples_rendered stream i examples (render_examples stream i examples).
Proof.
  intros Hplain. revert i.
  induction examples as [|example rest IH]; intros i;
    cbn [render_examples]; constructor; [| apply IH].
  apply (layout_renders (names_of_example stream i) example).
  - unfold names_of_example. rewrite List.length_firstn. lia.
  - now apply Forall_names_of_example.
Qed.

Lemma render_evaluators_rendered (stream : list string) (i : nat)
    (evaluators : list Evaluator.t) :
  Forall plain stream ->
  evaluators_rendered stream i evaluators
    (render_evaluators stream i evaluators).
Proof.
  intros Hplain. revert i.
  induction evaluators as [|evaluator rest IH]; intros i;
    cbn [render_evaluators]; [constructor |].
  apply (evaluators_rendered_cons stream i evaluator rest
           (render_examples stream i (Evaluator.examples evaluator))).
  - now apply render_examples_rendered.
  - apply IH.
Qed.

(** C6. [formatEvaluatorExamples] draws five names for every example, in
    the order of the examples through the evaluators, and leaves the
    generator after them: the example number [i] is rendered with the
    names number [5 * i + 1] to [5 * i + 5] of the generator and with no
    other, so that no name drawn serves two examples.  When the names
    drawn are plain, the text is the blocks of the evaluators with an
    empty line between them, the block of an evaluator being its examples
    rendered with an empty line between them, and an example is rendered
    with its five names replacing [{{user1}}] to [{{user5}}], the same
    five in its context, in each of its message strings and in its
    outcome. *)
Theorem formatEvaluatorExamples_names
    (evaluators : list Evaluator.t) (g : G) :
  let n := count_examples evaluators in
  let stream := draws gen (5 * n) g in
  formatEvaluatorExamples gen evaluators g
  = (join (LF ++ LF) (render_evaluators stream 0 evaluators),
     advance gen (5 * n) g)
  /\ (forall i,
        i < n ->
        firstn 5 (skipn (5 * i) stream)
        = draws gen 5 (advance gen (5 * i) g)
        /\ Datatypes.length (firstn 5 (skipn (5 * i) stream)) = 5)
  /\ (Forall plain stream ->
      exists blocks,
        formatEvaluatorExamples gen evaluators g
        = (String.concat "

" blocks, advance gen (5 * n) g)
        /\ evaluators_rendered stream 0 evaluators blocks).
Proof.
  intros n stream. subst n stream.
  assert (Heq : formatEvaluatorExamples gen evaluators g
                = (join (LF ++ LF)
                     (render_evaluators
                        (draws gen (5 * count_examples evaluators) g)
                        0 evaluators),
                   advance gen (5 * count_examples evaluators) g)).
  { unfold formatEvaluatorExamples.
    change g with (advance gen (5 * 0) g) at 1.
    rewrite (map_drawing_evaluators _ (count_examples evaluators)) by lia.
    reflexivity. }
  split; [exact Heq | split].
  - intros i Hi.
    change (firstn 5
              (skipn (5 * i) (draws gen (5 * count_examples evaluators) g)))
      with (names_of_example
              (draws gen (5 * count_examples evaluators) g) i).
    split; [now apply names_of_example_draws |].
    rewrite names_of_example_draws by exact Hi. apply length_draws.
  - intros Hplain.
    exists (render_evaluators
              (draws gen (5 * count_examples evaluators) g) 0 evaluators).
    split; [exact Heq | now apply render_evaluators_rendered].
Qed.

End Drawing.

Lemma formatEvaluatorExamples_names_witness :
  exists blocks,
    formatEvaluatorExamples Demo.cycle [Demo.summarization] Demo.source
    = (String.concat "

" blocks, advance Demo.cycle 10 Demo.source)
    /\ evaluators_rendered (draws Demo.cycle 10 Demo.source) 0
         [Demo.summarization] blocks.
Proof.
  apply (formatEvaluatorExamples_names Demo.cycle
           [Demo.summarization] Demo.source).
  repeat constructor.
Defined.

End EvaluatorsSpec.

(** * Further properties of the memory manager *)

Module MemoryManagerExtra.

Import MemoryLib.

Section WithCollaborators.

Context {W Rejection : Type}.
Implicit Types (this : MemoryManager W Rejection) (st : State W).
Implicit Types (memory : MemoryRef) (m : Memory.t).

Ltac step :=
  cbn [call run bind mbind Prog_bind mret Prog_ret read await
       assign_embedding console_log after outcome final trace heap world].

Ltac answer :=
  match goal with
  | |- context [runtime ?this ?q ?h ?w] =>
      let x := fresh "x" in
      let e := fresh "e" in
      let h' := fresh "h'" in
      let w' := fresh "w'" in
      let E := fresh "Hanswer" in
      destruct (runtime this q h w) as [[[x|e] h'] w'] eqn:E
  end.

(** X1. [getMemoriesByIds] awaits exactly one call, [getMemoriesByIds]
    of the adapter, with the user ids it was given, the count (10 when
    omitted), the uniqueness flag ([true] when omitted) and the table name
    of the manager, and settles as that call does. *)
Theorem getMemoriesByIds_forwards this st (opts : GetByIdsOpts) :
  let q :=
    databaseAdapter_getMemoriesByIds
      {| gmi_userIds := gbi_userIds opts;
         gmi_count := default_to 10%float (gbi_count opts);
         gmi_unique := default_to true (gbi_unique opts);
         gmi_tableName := tableName this |} in
  call this (getMemoriesByIds this opts) st
  = let '(answer, h, w) := runtime this q (heap st) (world st) in
    {| outcome := settle answer;
       final := {| heap := h; world := w |};
       trace := [Called q answer] |}.
Proof.
  intros q. subst q. unfold getMemoriesByIds. step. answer; reflexivity.
Qed.

(** X2. [createMemory] awaits exactly one call, [createMemory] of the
    adapter, with the reference it was given, the table name of the
    manager and the uniqueness flag ([false] when omitted); it neither
    reads the memory nor computes an embedding for it, and settles as the
    call does. *)
Theorem createMemory_forwards this st memory (unique : option bool) :
  let q :=
    databaseAdapter_createMemory memory (tableName this)
      (default_to false unique) in
  call this (createMemory this memory unique) st
  = let '(answer, h, w) := runtime this q (heap st) (world st) in
    {| outcome := settle answer;
       final := {| heap := h; world := w |};
       trace := [Called q answer] |}.
Proof.
  intros q. subst q. unfold createMemory. step.
  answer; [destruct x |]; reflexivity.
Qed.

(** X3. [removeMemory] and [removeAllMemoriesByUserIds] each await
    exactly one call of the adapter's method of the same name, with the
    id (or the ids, an empty list too) and the table name of the manager,
    and settle as that call does. *)
Theorem removals_forward this st (memoryId : UUID) (userIds : list UUID) :
  call this (removeMemory this memoryId) st
  = (let q := databaseAdapter_removeMemory memoryId (tableName this) in
     let '(answer, h, w) := runtime this q (heap st) (world st) in
     {| outcome := settle answer;
        final := {| heap := h; world := w |};
        trace := [Called q answer] |})
  /\ call this (removeAllMemoriesByUserIds this userIds) st
     = (let q :=
          databaseAdapter_removeAllMemoriesByUserIds userIds
            (tableName this) in
        let '(answer, h, w) := runtime this q (heap st) (world st) in
        {| outcome := settle answer;
           final := {| heap := h; world := w |};
           trace := [Called q answer] |}).
Proof.
  split.
  - unfold removeMemory. step. answer; [destruct x |]; reflexivity.
  - unfold removeAllMemoriesByUserIds. step.
    answer; [destruct x |]; reflexivity.
Qed.

(** X4. [countMemoriesByUserIds] awaits exactly one call,
    [countMemoriesByUserIds] of the adapter, with the user ids, the
    uniqueness flag ([true] when omitted) and the table name of the
    manager, and is fulfilled with the very number the adapter answers. *)
Theorem countMemoriesByUserIds_forwards
    this st (userIds : list UUID) (unique : option bool) :
  let q :=
    databaseAdapter_countMemoriesByUserIds userIds (default_to true unique)
      (tableName this) in
  call this (countMemoriesByUserIds this userIds unique) st
  = let '(answer, h, w) := runtime this q (heap st) (world st) in
    {| outcome := settle answer;
       final := {| heap := h; world := w |};
       trace := [Called q answer] |}.
Proof.
  intros q. subst q. unfold countMemoriesByUserIds. step.
  answer; reflexivity.
Qed.

(** X5. Every call a method awaits from the adapter carries the table
    name of the manager the method was called on; the embedder is called
    by [addEmbeddingToMemory] only. *)
Theorem calls_stay_in_table this st (op : Operation) :
  Forall
    (fun ev =>
       match call_of ev with
       | Some q =>
           match table_of q with
           | Some table => table = tableName this
           | None => exists memory, op = op_addEmbeddingToMemory memory
           end
       | None => True
       end)
    (trace (call this (perform this op) st)).
Proof.
  destruct op; unfold perform.
  - unfold addEmbeddingToMemory. step.
    destruct (heap st !! memory) as [m|] eqn:Hm; [| constructor].
    destruct (Memory.embedding m); cbn [truthy_array]; step;
      [constructor |].
    rewrite Hm.
    destruct (truthy_string (Content.content (Memory.content m)));
      cbn [negb]; step; [| constructor].
    answer; step.
    + destruct (h' !! memory); step; repeat constructor; now exists memory.
    + repeat constructor. now exists memory.
  - unfold getMemoriesByIds. step. answer; step; repeat constructor.
  - unfold getMemoryByContent. step. answer; step; repeat constructor.
  - unfold searchMemoriesByEmbedding. step.
    answer; step; [| repeat constructor].
    destruct x as [|r0 x]; cbn [first_embedding_length]; step;
      [repeat constructor |].
    destruct (h' !! r0); step; repeat constructor.
  - unfold createMemory. step. answer; step; repeat constructor.
  - unfold removeMemory. step. answer; step; repeat constructor.
  - unfold removeAllMemoriesByUserIds. step.
    answer; step; repeat constructor.
  - unfold countMemoriesByUserIds. step. answer; step; repeat constructor.
Qed.

(** X6. Every method but [addEmbeddingToMemory] awaits exactly one call
    on every input: nothing is answered locally, an empty list of user
    ids or an empty vector is passed on like any other. *)
Theorem one_call_per_method this st (op : Operation) :
  match op with
  | op_addEmbeddingToMemory _ => True
  | _ => Datatypes.length (calls (trace (call this (perform this op) st))) = 1
  end.
Proof.
  destruct op; unfold perform; [exact I | ..].
  - unfold getMemoriesByIds. step. answer; reflexivity.
  - unfold getMemoryByContent. step. answer; reflexivity.
  - unfold searchMemoriesByEmbedding. step. answer; step; [| reflexivity].
    destruct x as [|r0 x]; cbn [first_embedding_length]; step;
      [reflexivity |].
    destruct (h' !! r0); reflexivity.
  - unfold createMemory. step. answer; reflexivity.
  - unfold removeMemory. step. answer; reflexivity.
  - unfold removeAllMemoriesByUserIds. step. answer; reflexivity.
  - unfold countMemoriesByUserIds. step. answer; reflexivity.
Qed.

(** X7. No method assigns to a field of an object, except
    [addEmbeddingToMemory], which assigns at most once and to the memory
    it was given. *)
Theorem only_addEmbeddingToMemory_assigns this st (op : Operation) :
  Forall
    (fun ev =>
       match assigned_of ev with
       | Some r => op = op_addEmbeddingToMemory r
       | None => True
       end)
    (trace (call this (perform this op) st))
  /\ Datatypes.length
       (List.filter (fun ev => bool_decide (is_Some (assigned_of ev)))
          (trace (call this (perform this op) st))) <= 1.
Proof.
  destruct op; unfold perform.
  - unfold addEmbeddingToMemory. step.
    destruct (heap st !! memory) as [m|] eqn:Hm;
      [| split; [constructor | cbn; lia]].
    destruct (Memory.embedding m); cbn [truthy_array]; step;
      [split; [constructor | cbn; lia] |].
    rewrite Hm.
    destruct (truthy_string (Content.content (Memory.content m)));
      cbn [negb]; step; [| split; [constructor | cbn; lia]].
    answer; step.
    + destruct (h' !! memory); step;
        (split; [repeat constructor | cbn; lia]).
    + split; [repeat constructor | cbn; lia].
  - unfold getMemoriesByIds. step.
    answer; step; (split; [repeat constructor | cbn; lia]).
  - unfold getMemoryByContent. step.
    answer; step; (split; [repeat constructor | cbn; lia]).
  - unfold searchMemoriesByEmbedding. step.
    answer; step; [| split; [repeat constructor | cbn; lia]].
    destruct x as [|r0 x]; cbn [first_embedding_length]; step;
      [split; [repeat constructor | cbn; lia] |].
    destruct (h' !! r0); step; (split; [repeat constructor | cbn; lia]).
  - unfold createMemory. step.
    answer; step; (split; [repeat constructor | cbn; lia]).
  - unfold removeMemory. step.
    answer; step; (split; [repeat constructor | cbn; lia]).
  - unfold removeAllMemoriesByUserIds. step.
    answer; step; (split; [repeat constructor | cbn; lia]).
  - unfold countMemoriesByUserIds. step.
    answer; step; (split; [repeat constructor | cbn; lia]).
Qed.

(** X8. [addEmbeddingToMemory] twice: once a call on a memory is
    fulfilled, a second call on it returns the memory at once, awaiting
    nothing and changing nothing, so the embedder is asked at most once. *)
Theorem addEmbeddingToMemory_twice this st memory (first : MemoryRef) :
  outcome (call this (addEmbeddingToMemory this memory) st)
  = Fulfilled first ->
  call this (addEmbeddingToMemory this memory)
    (final (call this (addEmbeddingToMemory this memory) st))
  = {| outcome := Fulfilled memory;
       final := final (call this (addEmbeddingToMemory this memory) st);
       trace := [] |}.
Proof.
  unfold addEmbeddingToMemory. step.
  destruct (heap st !! memory) as [m|] eqn:Hm; step; [| discriminate].
  destruct (Memory.embedding m) as [v|] eqn:Hv; cbn [truthy_array]; step.
  - intros _. rewrite Hm, Hv. reflexivity.
  - rewrite Hm.
    destruct (truthy_string (Content.content (Memory.content m)));
      cbn [negb]; step; [| discriminate].
    answer; step; [| discriminate].
    destruct (h' !! memory) as [m0|]; step; [| discriminate].
    intros _. rewrite lookup_insert_eq. reflexivity.
Qed.

(** X9. When the embedder rejects, [addEmbeddingToMemory] is rejected
    with the same value and assigns nothing: the memory is left as the
    embedder left it, without embedding and without the zero vector. *)
Theorem addEmbeddingToMemory_embedder_rejects
    this st memory m (text : string) (e : Rejection) h' w' :
  heap st !! memory = Some m ->
  Memory.embedding m = None ->
  Content.content (Memory.content m) = Some text ->
  text <> EmptyString ->
  runtime this (runtime_embed (Some text)) (heap st) (world st)
  = (inr e, h', w') ->
  call this (addEmbeddingToMemory this memory) st
  = {| outcome := Rejected (Foreign e);
       final := {| heap := h'; world := w' |};
       trace := [Called (runtime_embed (Some text)) (inr e)] |}.
Proof.
  intros Hm Hv Hc Htext Hanswer.
  assert (Ht : truthy_string (Some text) = true).
  { simpl. apply negb_true_iff, String.eqb_neq, Htext. }
  unfold addEmbeddingToMemory. step. rewrite Hm, Hv. cbn [truthy_array].
  step. rewrite Hm, Hc, Ht. cbn [negb]. step. rewrite Hanswer.
  reflexivity.
Qed.

(** X10. With collaborators that leave the objects as they are, a method
    changes no object but the memory given to [addEmbeddingToMemory], and
    of that one nothing but the embedding: its id, its user id and its
    content are kept. *)
Theorem methods_keep_objects this st (op : Operation) (r : MemoryRef) :
  leaves_heap (runtime this) ->
  match heap st !! r with
  | None => heap (final (call this (perform this op) st)) !! r = None
  | Some m =>
      exists m',
        heap (final (call this (perform this op) st)) !! r = Some m'
        /\ Memory.id m' = Memory.id m
        /\ Memory.userId m' = Memory.userId m
        /\ Memory.content m' = Memory.content m
        /\ (op <> op_addEmbeddingToMemory r -> m' = m)
  end.
Proof.
  intros Hleaves.
  assert (Hsame : forall h,
            h = heap st ->
            match heap st !! r with
            | None => h !! r = None
            | Some m =>
                exists m', h !! r = Some m'
                           /\ Memory.id m' = Memory.id m
                           /\ Memory.userId m' = Memory.userId m
                           /\ Memory.content m' = Memory.content m
                           /\ (op <> op_addEmbeddingToMemory r -> m' = m)
            end).
  { intros h ->. destruct (heap st !! r) as [m|]; [| reflexivity].
    exists m. repeat split; reflexivity. }
  assert (Hrt : forall q x h' w',
            runtime this q (heap st) (world st) = (x, h', w') ->
            h' = heap st).
  { intros q x h' w' H. specialize (Hleaves q (heap st) (world st)).
    now rewrite H in Hleaves. }
  destruct op; unfold perform.
  - unfold addEmbeddingToMemory. step.
    destruct (heap st !! memory) as [m|] eqn:Hm; step;
      [| now apply Hsame].
    destruct (Memory.embedding m) as [v|] eqn:Hv; cbn [truthy_array]; step;
      [now apply Hsame |].
    rewrite Hm.
    destruct (truthy_string (Content.content (Memory.content m)));
      cbn [negb]; step; [| now apply Hsame].
    answer; step; apply Hrt in Hanswer; subst h'; [| now apply Hsame].
    rewrite Hm. step.
    destruct (decide (memory = r)) as [->|Hne].
    + rewrite Hm, lookup_insert_eq.
      exists (Memory.set_embedding x m). repeat split; try reflexivity.
      intros H. now destruct H.
    + rewrite lookup_insert_ne by exact Hne. now apply Hsame.
  - unfold getMemoriesByIds. step.
    answer; step; apply Hrt in Hanswer; now apply Hsame.
  - unfold getMemoryByContent. step.
    answer; step; apply Hrt in Hanswer; now apply Hsame.
  - unfold searchMemoriesByEmbedding. step.
    answer; step; apply Hrt in Hanswer; [| now apply Hsame].
    destruct x as [|r0 x]; cbn [first_embedding_length]; step;
      [now apply Hsame |].
    destruct (h' !! r0); step; now apply Hsame.
  - unfold createMemory. step.
    answer; step; apply Hrt in Hanswer; now apply Hsame.
  - unfold removeMemory. step.
    answer; step; apply Hrt in Hanswer; now apply Hsame.
  - unfold removeAllMemoriesByUserIds. step.
    answer; step; apply Hrt in Hanswer; now apply Hsame.
  - unfold countMemoriesByUserIds. step.
    answer; step; apply Hrt in Hanswer; now apply Hsame.
Qed.

End WithCollaborators.

(** *** The theorems at the demonstration runtime *)

Lemma Demo_runtime_leaves_heap : leaves_heap Demo.runtime.
Proof. intros q h w. destruct q; reflexivity. Qed.

Lemma addEmbeddingToMemory_twice_witness :
  call Demo.manager (addEmbeddingToMemory Demo.manager 7%positive)
    (final (call Demo.manager (addEmbeddingToMemory Demo.manager 7%positive)
              Demo.state))
  = {| outcome := Fulfilled 7%positive;
       final :=
         final (call Demo.manager
                  (addEmbeddingToMemory Demo.manager 7%positive) Demo.state);
       trace := [] |}.
Proof.
  apply (addEmbeddingToMemory_twice Demo.manager Demo.state
           7%positive 7%positive).
  reflexivity.
Defined.

Lemma addEmbeddingToMemory_embedder_rejects_witness :
  call (constructor "memories" Demo.offline)
    (addEmbeddingToMemory (constructor "memories" Demo.offline) 7%positive)
    Demo.state
  = {| outcome := Rejected (Foreign "503"%string);
       final := {| heap := heap Demo.state; world := 1 |};
       trace := [Called (runtime_embed (Some "hello"%string))
                   (inr "503"%string)] |}.
Proof.
  apply (addEmbeddingToMemory_embedder_rejects
           (constructor "memories" Demo.offline) Demo.state 7%positive
           Demo.hello "hello" "503"%string (heap Demo.state) 1);
    [reflexivity | reflexivity | reflexivity | discriminate | reflexivity].
Defined.

Lemma methods_keep_objects_witness :
  exists m',
    heap (final (call Demo.manager
                   (perform Demo.manager (op_addEmbeddingToMemory 7%positive))
                   Demo.state)) !! 7%positive = Some m'
    /\ Memory.id m' = Memory.id Demo.hello
    /\ Memory.userId m' = Memory.userId Demo.hello
    /\ Memory.content m' = Memory.content Demo.hello
    /\ (op_addEmbeddingToMemory 7%positive
        <> op_addEmbeddingToMemory 7%positive -> m' = Demo.hello).
Proof.
  exact (methods_keep_objects Demo.manager Demo.state
           (op_addEmbeddingToMemory 7%positive) 7%positive
           Demo_runtime_leaves_heap).
Defined.

End MemoryManagerExtra.

(** * Further properties of the evaluator formatting module *)

Module EvaluatorsExtra.

Import Evaluators.
Import EvaluatorsSpec.

Local Open Scope string_scope.
#[local] Arguments String.append !_ _ / : simpl nomatch.

(** ** Joining *)

Lemma join_cons (separator x : string) (rest : list string) :
  rest <> [] ->
  join separator (x :: rest) = x ++ separator ++ join separator rest.
Proof. destruct rest; [contradiction | reflexivity]. Qed.

Lemma join_app (separator : string) (a b : list string) :
  a <> [] -> b <> [] ->
  join separator (a ++ b)%list
  = join separator a ++ separator ++ join separator b.
Proof.
  intros Ha Hb. induction a as [|x a IH]; [contradiction |].
  destruct a as [|y a].
  - change ([x] ++ b)%list with (x :: b). now rewrite join_cons.
  - change ((x :: y :: a) ++ b)%list with (x :: ((y :: a) ++ b)%list).
    rewrite join_cons by discriminate.
    rewrite IH by discriminate.
    rewrite (join_cons separator x (y :: a)) by discriminate.
    now rewrite !append_assoc.
Qed.

(** ** The lists of names, descriptions and conditions *)

(** X11. The formatted names (and likewise the formatted descriptions and
    conditions) of a registry made of two non-empty parts are those of
    the parts, put together with a comma and a line feed. *)
Theorem formatters_of_two_parts (a b : list Evaluator.t) :
  a <> [] -> b <> [] ->
  formatEvaluatorNames (a ++ b)
  = formatEvaluatorNames a ++ "," ++ LF ++ formatEvaluatorNames b
  /\ formatEvaluators (a ++ b)
     = formatEvaluators a ++ "," ++ LF ++ formatEvaluators b
  /\ formatEvaluatorConditions (a ++ b)
     = formatEvaluatorConditions a ++ "," ++ LF
       ++ formatEvaluatorConditions b.
Proof.
  intros Ha Hb.
  assert (Hmap : forall f : Evaluator.t -> string,
            join ("," ++ LF) (map f (a ++ b))
            = join ("," ++ LF) (map f a) ++ "," ++ LF
              ++ join ("," ++ LF) (map f b)).
  { intros f. rewrite List.map_app, join_app.
    - now rewrite append_assoc.
    - now destruct a.
    - now destruct b. }
  unfold formatEvaluatorNames, formatEvaluators, formatEvaluatorConditions.
  repeat split; apply Hmap.
Qed.

(** X12. The two pairs of formatters differ by the field they print
    only: the descriptions of a registry are the conditions of the
    registry in which every evaluator has its description and condition
    exchanged, for the list of evaluators and for the list of examples. *)
Theorem descriptions_are_conditions_exchanged (evaluators : list Evaluator.t) :
  formatEvaluators evaluators
  = formatEvaluatorConditions (map exchange evaluators)
  /\ formatEvaluatorExampleDescriptions evaluators
     = formatEvaluatorExampleConditions (map exchange evaluators).
Proof.
  unfold formatEvaluators, formatEvaluatorConditions,
    formatEvaluatorExampleDescriptions, formatEvaluatorExampleConditions.
  rewrite !List.map_map. split; reflexivity.
Qed.

Lemma map_indexed_seq {A : Type} (f : nat -> string) (a : list A) (i : nat) :
  map_indexed (fun _ index => f (index + 1)) a i
  = map f (seq (i + 1) (Datatypes.length a)).
Proof.
  revert i. induction a as [|x a IH]; intros i; [reflexivity |].
  cbn [map_indexed Datatypes.length seq map]. now rewrite IH.
Qed.

(** X13. [formatEvaluatorExampleConditions] prints, for every evaluator,
    one line for each of its examples, numbered from 1 anew for every
    evaluator; what the examples contain plays no part, only how many
    they are. *)
Theorem formatEvaluatorExampleConditions_numbering
    (evaluators : list Evaluator.t) :
  formatEvaluatorExampleConditions evaluators
  = join (LF ++ LF)
      (map (fun evaluator =>
              join LF
                (map (conditionLine evaluator)
                   (seq 1 (Datatypes.length (Evaluator.examples evaluator)))))
         evaluators).
Proof.
  unfold formatEvaluatorExampleConditions. f_equal. apply map_ext.
  intros evaluator. f_equal.
  apply (map_indexed_seq (conditionLine evaluator)).
Qed.

(** ** Texts without placeholder *)

Lemma occursb_absent (p s : string) :
  p <> "" -> occursb p s = false -> absent p s.
Proof.
  intros Hp. induction s as [|c s IH]; intros H.
  - now apply absent_empty.
  - cbn [occursb] in H. apply orb_false_iff in H. destruct H as [Hpre H].
    intros Hocc. apply prefix_of_occurs_head in Hocc; [congruence |].
    now apply IH.
Qed.

Lemma forEach_absent (names : list string) (i : nat) (s : string) :
  (forall j, i <= j < i + Datatypes.length names ->
             absent (placeholder j) s) ->
  forEach (fun name index text => replaceAll text (placeholder index) name)
    names i s
  = s.
Proof.
  revert i. induction names as [|name names IH]; intros i H.
  - reflexivity.
  - cbn [forEach]. cbn [Datatypes.length] in H.
    rewrite replaceAll_absent;
      [| apply placeholder_nonempty | apply H; lia].
    apply IH. intros j Hj. apply H. lia.
Qed.

Lemma substitute_absent (names : list string) (s : string) :
  placeholder_free (Datatypes.length names) s -> substitute names s = s.
Proof.
  intros H. apply forEach_absent. intros j Hj. apply H. lia.
Qed.

(** X14. An example in which none of the placeholders of the names is
    found is rendered with its own texts, whatever the names are, names
    with a dollar sign too: the names drawn leave no mark. *)
Theorem formatExampleWith_without_placeholder
    (names : list string) (example : Example.t) :
  placeholder_free (Datatypes.length names) (Example.context example) ->
  Forall
    (fun message =>
       placeholder_free (Datatypes.length names) (messageText message))
    (Example.messages example) ->
  placeholder_free (Datatypes.length names) (Example.outcome example) ->
  formatExampleWith names example
  = layout (Example.context example)
      (map (fun message => messageText message ++ actionSuffix message)
         (Example.messages example))
      (Example.outcome example).
Proof.
  intros Hc Hm Ho. rewrite formatExampleWith_layout.
  rewrite !substitute_absent by assumption.
  f_equal. apply map_ext_Forall.
  induction Hm as [|message rest Hmessage Hrest IH]; constructor;
    [| exact IH].
  now rewrite substitute_absent.
Qed.

(** ** Registries in parts *)

Section Drawing.

Context {G : Type} (gen : G -> string * G).

Lemma map_drawing_app {A : Type} (f : A -> G -> string * G)
    (a b : list A) (g : G) :
  map_drawing f (a ++ b) g
  = (fst (map_drawing f a g)
     ++ fst (map_drawing f b (snd (map_drawing f a g))),
     snd (map_drawing f b (snd (map_drawing f a g))))%list.
Proof.
  revert g. induction a as [|x a IH]; intros g.
  - cbn [List.app map_drawing fst snd].
    now destruct (map_drawing f b g).
  - cbn [List.app map_drawing]. destruct (f x g) as [y g1].
    rewrite IH. destruct (map_drawing f a g1) as [ys g2].
    cbn [fst snd]. now destruct (map_drawing f b g2).
Qed.

Lemma map_drawing_nonempty {A : Type} (f : A -> G -> string * G)
    (a : list A) (g : G) :
  a <> [] -> fst (map_drawing f a g) <> [].
Proof.
  destruct a as [|x a]; [contradiction |]. intros _.
  cbn [map_drawing]. destruct (f x g) as [y g1].
  now destruct (map_drawing f a g1).
Qed.

Lemma formatEvaluatorExamples_fst (evaluators : list Evaluator.t) (g : G) :
  formatEvaluatorExamples gen evaluators g
  = (join (LF ++ LF)
       (fst (map_drawing
               (fun evaluator g =>
                  let '(rendered, g1) :=
                    map_drawing (formatExample gen)
                      (Evaluator.examples evaluator) g in
                  (join (LF ++ LF) rendered, g1))
               evaluators g)),
     snd (map_drawing
            (fun evaluator g =>
               let '(rendered, g1) :=
                 map_drawing (formatExample gen)
                   (Evaluator.examples evaluator) g in
               (join (LF ++ LF) rendered, g1))
            evaluators g)).
Proof.
  unfold formatEvaluatorExamples.
  now destruct (map_drawing _ evaluators g).
Qed.

(** X15. Rendering a registry made of two non-empty parts is rendering
    the first part, then the second with the generator as the first left
    it, and putting an empty line between the two texts. *)
Theorem formatEvaluatorExamples_of_two_parts
    (a b : list Evaluator.t) (g : G) :
  a <> [] -> b <> [] ->
  let first := formatEvaluatorExamples gen a g in
  let second := formatEvaluatorExamples gen b (snd first) in
  formatEvaluatorExamples gen (a ++ b) g
  = (fst first ++ LF ++ LF ++ fst second, snd second).
Proof.
  intros Ha Hb first second. subst first second.
  rewrite !formatEvaluatorExamples_fst. cbn [fst snd].
  rewrite map_drawing_app. cbn [fst snd].
  rewrite join_app by (now apply map_drawing_nonempty).
  now rewrite append_assoc.
Qed.

(** X16. An evaluator without examples draws no name: the evaluators
    after it are rendered with the generator as it was; its own text is
    empty, and is still set apart from theirs by an empty line. *)
Theorem formatEvaluatorExamples_no_examples
    (evaluator : Evaluator.t) (rest : list Evaluator.t) (g : G) :
  Evaluator.examples evaluator = [] ->
  rest <> [] ->
  formatEvaluatorExamples gen (evaluator :: rest) g
  = (LF ++ LF ++ fst (formatEvaluatorExamples gen rest g),
     snd (formatEvaluatorExamples gen rest g)).
Proof.
  intros Hnone Hrest.
  rewrite !formatEvaluatorExamples_fst. cbn [fst snd map_drawing].
  rewrite Hnone. cbn [map_drawing].
  destruct (map_drawing _ rest g) as [blocks g1] eqn:E. cbn [fst snd].
  assert (Hblocks : blocks <> []).
  { replace blocks with (fst (map_drawing
      (fun evaluator g =>
         let '(rendered, g1) :=
           map_drawing (formatExample gen) (Evaluator.examples evaluator) g in
         (join (LF ++ LF) rendered, g1)) rest g)) by now rewrite E.
    now apply map_drawing_nonempty. }
  now rewrite join_cons.
Qed.

End Drawing.

(** ** The rendering and its description *)

Lemma forEach_only_rendering (i : nat) (names : list string) (s s' : string) :
  replaced_in_turn i names s s' ->
  i + Datatypes.length names <= 5 ->
  Forall plain names ->
  s' = forEach
         (fun name index text => replaceAll text (placeholder index) name)
         names i s.
Proof.
  induction 1 as [i s|i name names pieces s' Hpieces Hrest IH];
    intros Hlen Hplain.
  - reflexivity.
  - cbn [Datatypes.length] in Hlen.
    inversion Hplain as [|? ? Hname Hnames]; subst.
    cbn [forEach].
    rewrite replaceAll_join;
      [| apply placeholder_nonempty | apply placeholder_unbordered; lia
       | exact Hname | exact Hpieces].
    apply IH; [lia | exact Hnames].
Qed.

(** X17. With at most five plain names, however a text is cut at the
    occurrences of a placeholder into pieces free of it, joining the
    pieces by the name, placeholder after placeholder, gives the text
    that [substitute] computes: the replacement of every occurrence in
    turn describes one text only. *)
Theorem substitute_only_rendering (names : list string) (s s' : string) :
  Datatypes.length names <= 5 ->
  Forall plain names ->
  replaced_in_turn 0 names s s' ->
  s' = substitute names s.
Proof.
  intros Hlen Hplain H. now apply (forEach_only_rendering 0 names s s').
Qed.

(** ** The theorems at the demonstration evaluators *)

Lemma formatters_of_two_parts_witness :
  formatEvaluatorNames [Demo.summarization; Demo.goal]
  = formatEvaluatorNames [Demo.summarization] ++ "," ++ LF
    ++ formatEvaluatorNames [Demo.goal]
  /\ formatEvaluators [Demo.summarization; Demo.goal]
     = formatEvaluators [Demo.summarization] ++ "," ++ LF
       ++ formatEvaluators [Demo.goal]
  /\ formatEvaluatorConditions [Demo.summarization; Demo.goal]
     = formatEvaluatorConditions [Demo.summarization] ++ "," ++ LF
       ++ formatEvaluatorConditions [Demo.goal].
Proof.
  apply (formatters_of_two_parts [Demo.summarization] [Demo.goal]);
    discriminate.
Defined.

Lemma placeholder_free_checked (n : nat) (s : string) :
  forallb (fun i => negb (occursb (placeholder i) s)) (seq 0 n) = true ->
  placeholder_free n s.
Proof.
  rewrite forallb_forall. intros H i Hi.
  apply occursb_absent; [apply placeholder_nonempty |].
  apply negb_true_iff, H, in_seq. lia.
Qed.

Lemma formatExampleWith_without_placeholder_witness :
  formatExampleWith ["$&"; "$`"; "Cy"; "Dee"; "Eve"] Demo.plainExample
  = layout "Two people talk." ["A: Hi {user1} ({{user1}})"]
      "Nothing {{user6}} happened.".
Proof.
  apply (formatExampleWith_without_placeholder
           ["$&"; "$`"; "Cy"; "Dee"; "Eve"] Demo.plainExample).
  - apply placeholder_free_checked. reflexivity.
  - constructor; [| constructor].
    apply placeholder_free_checked. reflexivity.
  - apply placeholder_free_checked. reflexivity.
Defined.

Lemma formatEvaluatorExamples_of_two_parts_witness :
  let first :=
    formatEvaluatorExamples Demo.cycle [Demo.summarization] Demo.source in
  let second :=
    formatEvaluatorExamples Demo.cycle [Demo.goal; Demo.summarization]
      (snd first) in
  formatEvaluatorExamples Demo.cycle
    [Demo.summarization; Demo.goal; Demo.summarization] Demo.source
  = (fst first ++ LF ++ LF ++ fst second, snd second).
Proof.
  apply (formatEvaluatorExamples_of_two_parts Demo.cycle
           [Demo.summarization] [Demo.goal; Demo.summarization] Demo.source);
    discriminate.
Defined.

Lemma formatEvaluatorExamples_no_examples_witness :
  formatEvaluatorExamples Demo.cycle [Demo.goal; Demo.summarization]
    Demo.source
  = (LF ++ LF
     ++ fst (formatEvaluatorExamples Demo.cycle [Demo.summarization]
               Demo.source),
     snd (formatEvaluatorExamples Demo.cycle [Demo.summarization]
            Demo.source)).
Proof.
  apply (formatEvaluatorExamples_no_examples Demo.cycle
           Demo.goal [Demo.summarization] Demo.source);
    [reflexivity | discriminate].
Defined.

Lemma substitute_only_rendering_witness :
  "Hi Ann, Ann!" = substitute ["Ann"] "Hi {{user1}}, {{user1}}!".
Proof.
  apply (substitute_only_rendering ["Ann"]
           "Hi {{user1}}, {{user1}}!" "Hi Ann, Ann!").
  - cbn. lia.
  - repeat constructor.
  - apply (replaced_next 0 "Ann" [] ["Hi "; ", "; "!"] "Hi Ann, Ann!").
    + repeat constructor;
        (apply occursb_absent; [apply placeholder_nonempty | reflexivity]).
    + apply replaced_done.
Defined.

(** *** The formatters run *)

Example names_of_the_registry :
  formatEvaluatorNames [Demo.summarization; Demo.goal]
  = "'summarization',
'goal'".
Proof. vm_compute. reflexivity. Qed.

Example conditions_of_the_examples :
  formatEvaluatorExampleConditions [Demo.summarization; Demo.goal]
  = "summarization Example 1: always
summarization Example 2: always

".
Proof. vm_compute. reflexivity. Qed.

End EvaluatorsExtra.
